(** * Weenix kernel core: scheduler, page-fault path, heap break, tty layer

    A shallow embedding of

    - the wait queues and the scheduler of [kernel/proc/sched.c]
      ([ktqueue_enqueue], [ktqueue_dequeue], [ktqueue_remove],
      [sched_sleep_on], [sched_cancellable_sleep_on], [sched_wakeup_on],
      [sched_broadcast_on], [sched_cancel], [sched_switch],
      [sched_make_runnable]),
    - the page-fault handler [handle_pagefault],
    - the heap break [do_brk] of [kernel/vm/brk.c],
    - the terminal output path [tty_echo] and [tty_write],

    followed by the properties of these functions that the design
    document of the kernel states.  Kernel code that stops the kernel
    ([KASSERT], [panic], a null pointer) or ends the process ([do_exit])
    is embedded with an outcome of its own; code that gives up the CPU
    is embedded as a resumption. *)

From Stdlib Require Import ZArith List Lia Bool.
From Stdlib Require Import Strings.Byte.
From stdpp Require Import base list functions.
Import ListNotations.

Local Open Scope Z_scope.

(** ** Machine integers and page arithmetic *)

Module Machine.

(** [uint32_t] / [uintptr_t] arithmetic of the i386 target: results are
    reduced modulo 2^32. *)
Definition wrap32 (z : Z) : Z := z mod 2 ^ 32.

(** [int] arithmetic (two's complement on 32 bits), used by the queue
    size counter. *)
Definition INT_MAX : Z := 2 ^ 31 - 1.
Definition wrap_int (z : Z) : Z := (z + 2 ^ 31) mod 2 ^ 32 - 2 ^ 31.

(** Modelled from the spec: the page macros of [mm/page.h] are not part
    of the sources at hand; the design document fixes
    [pagenum = vaddr / PAGE_SIZE] and its scenario S5 (address [0x3500]
    lies on page 3) fixes 4 KiB pages. *)
Definition PAGE_SHIFT : Z := 12.
Definition PAGE_SIZE : Z := Z.shiftl 1 PAGE_SHIFT.
Definition ADDR_TO_PN (x : Z) : Z := Z.shiftr x PAGE_SHIFT.
Definition PN_TO_ADDR (x : Z) : Z := wrap32 (Z.shiftl x PAGE_SHIFT).
Definition PAGE_ALIGN_DOWN (x : Z) : Z :=
  Z.land x (wrap32 (Z.lnot (PAGE_SIZE - 1))).

(** The page an address lies on, in the words of the design document. *)
Definition page_of (addr : Z) : Z := addr / 4096.

End Machine.

(** ** Address-space maps *)

Module Vm.
Import Machine.

(** A memory object is known to the fault path only by reference. *)
Definition mmobj := nat.

(** [vmarea_t]: the page range [[vma_start, vma_end)], the offset into
    the backing object, the protection bits and the (nullable) object
    pointer. *)
Record vmarea : Type := mk_vmarea {
  vma_start : Z;
  vma_end   : Z;
  vma_off   : Z;
  vma_prot  : Z;
  vma_obj   : option mmobj
}.

Definition set_vma_end (a : vmarea) (e : Z) : vmarea :=
  mk_vmarea (vma_start a) e (vma_off a) (vma_prot a) (vma_obj a).

(** [vmmap_t]: the list of areas of a process.  A pointer to an area is
    its position in the list. *)
Definition vmmap := list vmarea.

Definition area_contains (vfn : Z) (a : vmarea) : Prop :=
  vma_start a <= vfn < vma_end a.

#[global] Instance area_contains_dec vfn a : Decision (area_contains vfn a).
Proof. unfold area_contains. apply _. Defined.

(** Modelled from the spec: [vmmap_lookup] lives in [vm/vmmap.c], which
    is not among the sources; by the design document "lookup by page
    number returns the unique containing area or none".  The result
    carries the position of the area, which plays the role of the
    returned pointer. *)
Definition vmmap_lookup (map : vmmap) (vfn : Z) : option (nat * vmarea) :=
  list_find (area_contains vfn) map.

(** Modelled from the spec: [vmmap_is_range_empty] lives in
    [vm/vmmap.c] too; the range of [npages] pages from [startvfn] on is
    empty when no page of it lies in an area of the map. *)
Definition vmmap_is_range_empty (map : vmmap) (startvfn npages : Z) : bool :=
  forallb (fun k => bool_decide (vmmap_lookup map (startvfn + Z.of_nat k) = None))
          (seq 0 (Z.to_nat npages)).

(** The page range [[lo, hi)] is empty in a map: none of its pages lies
    in an area. *)
Definition range_empty (map : vmmap) (lo hi : Z) : Prop :=
  forall pg, lo <= pg < hi -> forall a, In a map -> ~ area_contains pg a.

(** The areas of a map do not overlap: a page lies in at most one of
    them. *)
Definition areas_disjoint (map : vmmap) : Prop :=
  forall (i j : nat) (a b : vmarea) (pg : Z),
    map !! i = Some a -> map !! j = Some b ->
    area_contains pg a -> area_contains pg b -> i = j.

(** The part of [proc_t] the memory code reads and writes. *)
Record proc : Type := mk_proc {
  p_brk       : Z;
  p_start_brk : Z;
  p_vmmap     : vmmap;
  p_pagedir   : Z
}.

End Vm.

(** ** The page-fault handler ([handle_pagefault]) *)

Module Pagefault.
Import Machine Vm.

(** [pframe_t]: the kernel address of the frame ([0] is the null
    pointer) and the object the frame belongs to. *)
Record pframe : Type := mk_pframe {
  pf_addr : Z;
  pf_obj  : mmobj
}.

(** The flag values come from [vm/pagefault.h], [mm/mman.h],
    [mm/pagetable.h] and [errno.h], which are not among the sources:
    the handler is embedded for arbitrary values of them. *)
Class FaultConsts : Type := {
  FAULT_WRITE : Z;
  FAULT_EXEC  : Z;
  PROT_READ   : Z;
  PROT_WRITE  : Z;
  PROT_EXEC   : Z;
  PD_PRESENT  : Z;
  PD_WRITE    : Z;
  PD_USER     : Z;
  PT_PRESENT  : Z;
  PT_WRITE    : Z;
  PT_USER     : Z;
  EFAULT      : Z
}.

(** The collaborators of the handler: the memory-object lookup (its
    [int] result and the frame pointer it stores), [pframe_dirty],
    [pt_map] and [pt_virt_to_phys]. *)
Class FaultEnv : Type := {
  pframe_lookup   : mmobj -> Z -> Z -> Z * option pframe;
  pframe_dirty    : pframe -> Z;
  pt_map          : Z -> Z -> Z -> Z -> Z -> Z;
  pt_virt_to_phys : Z -> Z
}.

(** The calls the handler makes to its collaborators, in order. *)
Inductive event : Type :=
| EvLookup (obj : mmobj) (pagenum : Z) (forwrite : Z)
| EvDirty (pf : pframe)
| EvPtMap (pagedir vaddr paddr pdflags ptflags : Z).

(** The two ways the handler does not return: [do_exit], which ends the
    process with a status, and a failed [KASSERT]. *)
Inductive stop : Type :=
| Exited (status : Z)
| Panicked.

(** Handler computations: the calls made so far and either the reason
    the handler stopped or its result. *)
Definition M (A : Type) : Type := (list event * (stop + A))%type.

#[global] Instance M_ret : MRet M := fun A a => ([], inr a).
#[global] Instance M_bind : MBind M := fun A B f m =>
  match m with
  | (tr, inl s) => (tr, inl s)
  | (tr, inr a) => let '(tr', r) := f a in (tr ++ tr', r)
  end.

Definition do_exit {A : Type} (status : Z) : M A := ([], inl (Exited status)).
Definition KASSERT (b : bool) : M unit :=
  if b then mret tt else ([], inl Panicked).
Definition call {A : Type} (e : event) (result : A) : M A := ([e], inr result).

(** A C truth value. *)
Definition truthy (z : Z) : bool := negb (z =? 0).

Section Handler.
Context `{FaultConsts} `{FaultEnv}.

Definition handle_pagefault (curproc : proc) (vaddr cause : Z) : M unit :=
  let pagenum := ADDR_TO_PN vaddr in
  area ← match vmmap_lookup (p_vmmap curproc) pagenum with
         | None => do_exit EFAULT
         | Some (_, a) => mret a
         end;
  _ ← (if Z.land cause FAULT_WRITE =? 0
        then if Z.land (vma_prot area) PROT_READ =? 0
             then do_exit EFAULT else mret tt
        else mret tt);
  let forwrite := 0 in
  let pdflags := Z.lor PD_PRESENT PD_USER in
  let ptflags := Z.lor PT_PRESENT PT_USER in
  '(forwrite, pdflags, ptflags) ←
    (if truthy (Z.land cause FAULT_WRITE)
     then _ ← (if Z.land (vma_prot area) PROT_WRITE =? 0
                then do_exit EFAULT else mret tt);
          mret (1, Z.lor pdflags PD_WRITE, Z.lor ptflags PT_WRITE)
     else mret (forwrite, pdflags, ptflags));
  _ ← (if truthy (Z.land cause FAULT_EXEC)
        then if Z.land (vma_prot area) PROT_EXEC =? 0
             then do_exit EFAULT else mret tt
        else mret tt);
  obj ← match vma_obj area with
        | None => ([], inl Panicked)
        | Some o => mret o
        end;
  let idx := wrap32 (pagenum - vma_start area + vma_off area) in
  '(err, pf) ← call (EvLookup obj idx forwrite) (pframe_lookup obj idx forwrite);
  _ ← (if err <? 0 then do_exit EFAULT else mret tt);
  _ ← KASSERT (err =? 0);
  pf ← match pf with
       | None => ([], inl Panicked)
       | Some f => mret f
       end;
  _ ← KASSERT (truthy (pf_addr pf));
  _ ← (if truthy forwrite
        then _ ← KASSERT (bool_decide (obj = pf_obj pf));
             err ← call (EvDirty pf) (pframe_dirty pf);
             KASSERT (err =? 0)
        else mret tt);
  let pagedir := p_pagedir curproc in
  _ ← KASSERT (PAGE_ALIGN_DOWN vaddr =? PN_TO_ADDR pagenum);
  let paddr := pt_virt_to_phys (pf_addr pf) in
  err ← call (EvPtMap pagedir (PN_TO_ADDR pagenum) paddr pdflags ptflags)
             (pt_map pagedir (PN_TO_ADDR pagenum) paddr pdflags ptflags);
  KASSERT (err =? 0).

End Handler.

(** The values the kernel's headers give the constants. *)
Definition weenix_consts : FaultConsts := {|
  FAULT_WRITE := 2;  FAULT_EXEC := 16;
  PROT_READ := 1;    PROT_WRITE := 2;   PROT_EXEC := 4;
  PD_PRESENT := 1;   PD_WRITE := 2;     PD_USER := 4;
  PT_PRESENT := 1;   PT_WRITE := 2;     PT_USER := 4;
  EFAULT := 14
|}.

(** A sample environment: object [9] has no pages (its lookup fails with
    [-ENOMEM]), every other object keeps page [i] in the frame at kernel
    address [0xc0100000 + i * PAGE_SIZE]. *)
Definition sample_env : FaultEnv := {|
  pframe_lookup := fun obj idx _ =>
    if Nat.eqb obj 9 then (-12, None)
    else (0, Some (mk_pframe (3222274048 + idx * 4096) obj));
  pframe_dirty := fun _ => 0;
  pt_map := fun _ _ _ _ _ => 0;
  pt_virt_to_phys := fun a => a - 3221225472
|}.

(** The process of scenarios S1 to S3: one area, pages [[10, 20)]. *)
Definition sample_proc (prot : Z) (obj : mmobj) : proc :=
  mk_proc 0 0 [mk_vmarea 10 20 3 prot (Some obj)] 77.

End Pagefault.

(** ** The heap break ([vm/brk.c]) *)

Module Brk.
Import Machine Vm.

(** What a call of [do_brk] leaves behind: the [int] it returns, the
    value it stored through [ret] (if it stored one) and the process
    afterwards; or a kernel panic. *)
Inductive brk_result : Type :=
| BrkReturn (code : Z) (ret : option Z) (p : proc)
| BrkPanic.

Definition set_p_brk (p : proc) (b : Z) : proc :=
  mk_proc b (p_start_brk p) (p_vmmap p) (p_pagedir p).

Definition set_p_vmmap (p : proc) (m : vmmap) : proc :=
  mk_proc (p_brk p) (p_start_brk p) m (p_pagedir p).

Section DoBrk.
(** [USER_MEM_HIGH] comes from [mm/mm.h] and [ENOMEM] from [errno.h];
    neither header is among the sources. *)
Variables USER_MEM_HIGH ENOMEM : Z.

Definition do_brk (addr : Z) (curproc : proc) : brk_result :=
  if addr =? 0 then BrkReturn 0 (Some (p_brk curproc)) curproc
  else
    let start_brk := p_start_brk curproc in
    let brk := p_brk curproc in
    let vaddr := addr in
    let lopage := ADDR_TO_PN (PAGE_ALIGN_DOWN start_brk) in
    if vaddr <? start_brk then BrkReturn (- ENOMEM) None curproc
    else if USER_MEM_HIGH <=? vaddr then BrkReturn (- ENOMEM) None curproc
    else if vaddr =? brk then BrkReturn 0 (Some addr) (set_p_brk curproc addr)
    else if negb (start_brk <=? brk) then BrkPanic
    else
      match vmmap_lookup (p_vmmap curproc) lopage with
      | None => BrkPanic
      | Some (i, area) =>
          let hiaddr := wrap32 (vaddr - 1) in
          let hipage := ADDR_TO_PN hiaddr in
          let grown :=
            set_p_brk
              (set_p_vmmap curproc
                 (<[i := set_vma_end area (wrap32 (hipage + 1))]>
                    (p_vmmap curproc)))
              addr in
          if hipage <? vma_end area then BrkReturn 0 (Some addr) grown
          else if vmmap_is_range_empty (p_vmmap curproc) (vma_end area)
                    (wrap32 (hipage - vma_end area + 1))
          then BrkReturn 0 (Some addr) grown
          else BrkReturn (- ENOMEM) None curproc
      end.

End DoBrk.

(** The process of scenarios S5 and S6: the heap area covers page
    [[1, 2)], and [others] are the further areas of the map. *)
Definition heap_proc (others : vmmap) : proc :=
  mk_proc 4096 4096 (mk_vmarea 1 2 0 3 (Some 1%nat) :: others) 77.

(** The process of scenario S5 after its break has been raised to
    [0x3500]: the heap area covers pages [[1, 4)]; [others] are the
    further areas of the map. *)
Definition grown_proc (others : vmmap) : proc :=
  mk_proc 13568 4096 (mk_vmarea 1 4 0 3 (Some 1%nat) :: others) 77.

End Brk.

(** ** The terminal layer ([tty_echo], [tty_write]) *)

Module Tty.
Import Strings.Byte.

(** The function table [ttd_ops] of a driver, as far as [tty_echo] and
    [tty_write] use it.  [D] is the state of the driver; the token
    [block_io] returns is an untyped pointer. *)
Class tty_driver_ops (D : Type) : Type := {
  provide_char : D -> byte -> D;
  block_io     : D -> D * Z;
  unblock_io   : D -> Z -> D
}.

(** The function table [ld_ops] of a line discipline, as far as
    [tty_write] uses it.  [L] is the state of the discipline;
    [process_char] returns a C string, given here by the bytes stored
    from the returned pointer on (the end of the list stands for the
    terminating null byte). *)
Class tty_ldisc_ops (L : Type) : Type := {
  process_char : L -> byte -> L * list byte
}.

(** [tty_device_t]: both pointers may be null. *)
Record tty_device (D L : Type) : Type := mk_tty {
  tty_driver : option D;
  tty_ldisc  : option L;
  tty_id     : Z
}.
Arguments mk_tty {D L} _ _ _.
Arguments tty_driver {D L} _.
Arguments tty_ldisc {D L} _.
Arguments tty_id {D L} _.

(** A call either returns or trips a [KASSERT]. *)
Inductive result (A : Type) : Type :=
| Returned (a : A)
| Panicked.
Arguments Returned {A} _.
Arguments Panicked {A}.

Section Ops.
Context {D L : Type} `{tty_driver_ops D} `{tty_ldisc_ops L}.

(** [tty_echo]: the [while] loop walks the string up to its first null
    byte. *)
Fixpoint tty_echo (driver : D) (out : list byte) : D :=
  match out with
  | [] => driver
  | c :: rest =>
      if Byte.eqb c x00 then driver
      else tty_echo (provide_char driver c) rest
  end.

(** The [for] loop of [tty_write] with [n] iterations to go before [i]
    reaches [count]; [buff] gives the byte stored at each index. *)
Fixpoint tty_write_loop (n : nat) (i : Z) (buff : Z -> byte)
    (ttyd : D) (ldisc : L) : Z * D * L :=
  match n with
  | O => (i, ttyd, ldisc)
  | S n' =>
      if Byte.eqb (buff i) x00 then (i, ttyd, ldisc)
      else
        let '(ldisc', s) := process_char ldisc (buff i) in
        tty_write_loop n' (i + 1) buff (tty_echo ttyd s) ldisc'
  end.

(** [tty_write]: returns the [int] result and the device afterwards. *)
Definition tty_write (tty : tty_device D L) (offset : Z) (buff : Z -> byte)
    (count : Z) : result (Z * tty_device D L) :=
  match tty_driver tty with
  | None => Panicked
  | Some ttyd =>
      let '(ttyd, ret) := block_io ttyd in
      match tty_ldisc tty with
      | None => Panicked
      | Some ldisc =>
          let '(i, ttyd, ldisc) :=
            tty_write_loop (Z.to_nat count) 0 buff ttyd ldisc in
          let ttyd := unblock_io ttyd ret in
          Returned (i, mk_tty (Some ttyd) (Some ldisc) (tty_id tty))
      end
  end.

(** The bytes of a C string: those before its first null byte. *)
Fixpoint c_string (s : list byte) : list byte :=
  match s with
  | [] => []
  | c :: rest => if Byte.eqb c x00 then [] else c :: c_string rest
  end.

(** Passing the bytes [bs], in order, through [process_char] and
    handing every byte of each returned string to [provide_char]. *)
Fixpoint feed (bs : list byte) (ttyd : D) (ldisc : L) : D * L :=
  match bs with
  | [] => (ttyd, ldisc)
  | c :: bs' =>
      let '(ldisc', s) := process_char ldisc c in
      feed bs' (fold_left provide_char (c_string s) ttyd) ldisc'
  end.

(** The bytes [buff[i .. i + n)]. *)
Definition bytes_from (buff : Z -> byte) (i : Z) (n : nat) : list byte :=
  map (fun k => buff (i + Z.of_nat k)) (seq 0 n).

End Ops.

(** A screen that records what it is given and counts the calls of
    [block_io], and a discipline that counts the bytes it has seen and
    turns a newline into carriage return and newline. *)
Definition screen_ops : tty_driver_ops (list byte * Z) := {|
  provide_char := fun d c => (fst d ++ [c], snd d);
  block_io := fun d => ((fst d, snd d + 1), 5);
  unblock_io := fun d tok => (fst d, snd d - tok + 4)
|}.

Definition crlf_ops : tty_ldisc_ops Z := {|
  process_char := fun l c =>
    (l + 1, if Byte.eqb c x0a then [x0d; x0a] else [c])
|}.

(** The buffer holding ["a\nb"], a null byte, and ["c"] from index 4 on. *)
Definition sample_buf (i : Z) : byte :=
  if i =? 0 then x61 else if i =? 1 then x0a else if i =? 2 then x62
  else if i =? 3 then x00 else x63.

(** *** Creation, input and reading *)

(** The entries of [ld_ops] on the input side: [receive_char], which
    returns the string to echo, and [read], which is handed the buffer
    and the count and returns the number of bytes it stored; the bytes
    stored come back beside that number. *)
Class tty_ldisc_input_ops (L : Type) : Type := {
  receive_char : L -> byte -> L * list byte;
  read         : L -> Z -> L * list byte * Z
}.

(** The byte-device record embedded in a tty ([tty_cdev]): its id and
    its table of operations, which has six entries. *)
Inductive bytedev_op : Type :=
| op_tty_read
| op_tty_write.

Record bytedev : Type := mk_bytedev {
  cd_id  : Z;
  cd_ops : list (option bytedev_op)
}.

Definition tty_bytedev_ops : list (option bytedev_op) :=
  [Some op_tty_read; Some op_tty_write; None; None; None; None].

Section Device.
Context {D L : Type} `{tty_driver_ops D} `{tty_ldisc_ops L}
        `{tty_ldisc_input_ops L}.
(** [MKDEVID] and [TTY_MAJOR] come from headers that are not among the
    sources. *)
Variable MKDEVID : Z -> Z -> Z.
Variable TTY_MAJOR : Z.

(** [tty_create]; [kmalloc] tells whether the allocation gave memory.
    The device is returned with its embedded byte device beside it. *)
Definition tty_create (kmalloc : bool) (driver : option D) (id : Z)
    : result (tty_device D L * bytedev) :=
  match driver with
  | None => Panicked
  | Some _ =>
      if kmalloc then
        Returned (mk_tty driver None (MKDEVID TTY_MAJOR id),
                  mk_bytedev (MKDEVID TTY_MAJOR id) tty_bytedev_ops)
      else Panicked
  end.

(** [tty_global_driver_callback]; [arg] is the tty registered with the
    driver. *)
Definition tty_global_driver_callback (arg : option (tty_device D L))
    (c : byte) : result (tty_device D L) :=
  match arg with
  | None => Panicked
  | Some tty =>
      match tty_ldisc tty with
      | None => Panicked
      | Some tty_ldisc =>
          let '(tty_ldisc, s) := receive_char tty_ldisc c in
          match tty_driver tty with
          | None => Panicked
          | Some driver =>
              Returned (mk_tty (Some (tty_echo driver s)) (Some tty_ldisc)
                          (tty_id tty))
          end
      end
  end.

(** [tty_read]: returns the [int] result, the bytes stored into [buf]
    and the device afterwards. *)
Definition tty_read (tty : tty_device D L) (offset : Z) (count : Z)
    : result (Z * list byte * tty_device D L) :=
  match tty_driver tty with
  | None => Panicked
  | Some ttyd =>
      let '(ttyd, ret) := block_io ttyd in
      match tty_ldisc tty with
      | None => Panicked
      | Some ldisc =>
          let '(ldisc, buf, n) := read ldisc count in
          let ttyd := unblock_io ttyd ret in
          Returned (n, buf, mk_tty (Some ttyd) (Some ldisc) (tty_id tty))
      end
  end.

End Device.

(** A discipline for the input side that echoes what it receives and
    has nothing to read. *)
Definition echo_input_ops : tty_ldisc_input_ops Z := {|
  receive_char := fun l c => (l + 1, [c]);
  read := fun l _ => (l, [], 0)
|}.

End Tty.

(** ** The scheduler ([proc/sched.c]) *)

Module Sched.
Import Machine.

(** Threads and queues live in kernel memory; a [kthread_t *] and a
    [ktqueue_t *] are given by the name of the object pointed to, and a
    null pointer by [None]. *)
Abbreviation tid := nat.
Abbreviation qid := nat.
Abbreviation pid := nat.

(** The states of a thread ([kt_state]). *)
Inductive kt_state_t : Type :=
| KT_NO_STATE
| KT_RUN
| KT_SLEEP
| KT_SLEEP_CANCELLABLE
| KT_EXITED.

(** [kthread_t].  The link [kt_qlink] is given by the queue whose list
    it is spliced into, [None] standing for a link whose [l_next] and
    [l_prev] are null. *)
Record kthread : Type := mk_kthread {
  kt_state     : kt_state_t;
  kt_cancelled : Z;
  kt_wchan     : option qid;
  kt_qlink     : option qid;
  kt_proc      : pid
}.

(** [ktqueue_t]: the threads linked on [tq_list], head first, and the
    counter [tq_size]. *)
Record ktqueue : Type := mk_ktqueue {
  tq_list : list tid;
  tq_size : Z
}.

(** The kernel state the scheduler works on: the threads and queues in
    memory, [curthr], [curproc], and the interrupt state of the CPU. *)
Record kernel : Type := mk_kernel {
  threads : tid -> kthread;
  queues  : qid -> ktqueue;
  curthr  : option tid;
  curproc : option pid;
  ipl     : Z;
  intr_on : bool
}.

(** The run queue [kt_runq], a static object of [sched.c]. *)
Definition kt_runq : qid := 0%nat.

Definition with_thread (k : kernel) (t : tid) (th : kthread) : kernel :=
  mk_kernel (<[t := th]> (threads k)) (queues k) (curthr k) (curproc k)
    (ipl k) (intr_on k).

Definition with_queue (k : kernel) (q : qid) (tq : ktqueue) : kernel :=
  mk_kernel (threads k) (<[q := tq]> (queues k)) (curthr k) (curproc k)
    (ipl k) (intr_on k).

Definition with_current (k : kernel) (t : option tid) (p : option pid)
    : kernel :=
  mk_kernel (threads k) (queues k) t p (ipl k) (intr_on k).

Definition with_ipl (k : kernel) (level : Z) : kernel :=
  mk_kernel (threads k) (queues k) (curthr k) (curproc k) level (intr_on k).

Definition with_intr (k : kernel) (on : bool) : kernel :=
  mk_kernel (threads k) (queues k) (curthr k) (curproc k) (ipl k) on.

Definition set_kt_state (th : kthread) (s : kt_state_t) : kthread :=
  mk_kthread s (kt_cancelled th) (kt_wchan th) (kt_qlink th) (kt_proc th).

Definition set_kt_cancelled (th : kthread) (c : Z) : kthread :=
  mk_kthread (kt_state th) c (kt_wchan th) (kt_qlink th) (kt_proc th).

Definition set_kt_wchan (th : kthread) (w : option qid) : kthread :=
  mk_kthread (kt_state th) (kt_cancelled th) w (kt_qlink th) (kt_proc th).

Definition set_kt_qlink (th : kthread) (l : option qid) : kthread :=
  mk_kthread (kt_state th) (kt_cancelled th) (kt_wchan th) l (kt_proc th).

(** *** Scheduler computations *)

(** The two places where the CPU leaves the running code: [intr_wait],
    which halts until an interrupt has been served, and
    [context_switch], which runs other threads until one of them
    switches back. *)
Inductive yield : Type :=
| IntrWait
| CtxSwitch (old : option tid) (new : tid).

(** The outcome of running scheduler code from a kernel state: it
    returns, or a [KASSERT] or a null pointer stops the kernel, or the
    CPU leaves the code at a [yield] with the kernel state it leaves
    behind and the rest of the code to run on the state it finds when it
    comes back; [Spin] is a wait loop that was cut off. *)
Inductive outcome (A : Type) : Type :=
| Done (a : A) (k : kernel)
| Panic (k : kernel)
| Yield (y : yield) (k : kernel) (resume : kernel -> outcome A)
| Spin (k : kernel).
Arguments Done {A} _ _.
Arguments Panic {A} _.
Arguments Yield {A} _ _ _.
Arguments Spin {A} _.

Definition M (A : Type) : Type := kernel -> outcome A.

Fixpoint bind_outcome {A B : Type} (o : outcome A) (f : A -> M B)
    : outcome B :=
  match o with
  | Done a k => f a k
  | Panic k => Panic k
  | Yield y k resume => Yield y k (fun k' => bind_outcome (resume k') f)
  | Spin k => Spin k
  end.

Definition ret {A : Type} (a : A) : M A := fun k => Done a k.
Definition bind {A B : Type} (m : M A) (f : A -> M B) : M B :=
  fun k => bind_outcome (m k) f.
Definition gets {A : Type} (f : kernel -> A) : M A := fun k => Done (f k) k.
Definition modify (f : kernel -> kernel) : M unit := fun k => Done tt (f k).
Definition panic {A : Type} : M A := fun k => Panic k.
Definition KASSERT (b : bool) : M unit := if b then ret tt else panic.

Declare Scope sched_scope.
Delimit Scope sched_scope with sched.
Notation "x <- m ;; f" := (bind m (fun x => f))
  (at level 100, m at next level, right associativity) : sched_scope.
Notation "m ;; f" := (bind m (fun _ => f))
  (at level 100, right associativity) : sched_scope.
Local Open Scope sched_scope.

Definition is_some {A : Type} (o : option A) : bool :=
  match o with Some _ => true | None => false end.

(** *** List primitives *)

(** Modelled from the spec: the list primitives of [util/list.h] are
    not among the sources; by the design document a wait queue is "an
    ordered sequence of threads supporting enqueue-at-head and
    dequeue-from-tail", and the link splices a thread into one queue at
    a time. *)
Definition list_empty (q : qid) : M bool :=
  gets (fun k => bool_decide (tq_list (queues k q) = [])).

Definition list_insert_head (q : qid) (thr : tid) : M unit :=
  modify (fun k =>
    let tq := queues k q in
    with_thread
      (with_queue k q (mk_ktqueue (thr :: tq_list tq) (tq_size tq)))
      thr (set_kt_qlink (threads k thr) (Some q))).

(** The thread whose link is [q->tq_list.l_prev]. *)
Definition list_tail (q : qid) : M (option tid) :=
  gets (fun k => list.last (tq_list (queues k q))).

(** [list_remove] of the tail link of [q], found through the list of
    [q] itself. *)
Definition list_remove_tail (q : qid) (thr : tid) : M unit :=
  modify (fun k =>
    let tq := queues k q in
    with_thread
      (with_queue k q (mk_ktqueue (removelast (tq_list tq)) (tq_size tq)))
      thr (set_kt_qlink (threads k thr) None)).

(** [list_remove] of the link of [thr]: it leaves the list it is
    spliced into; unlinking a link that is not linked follows null
    pointers. *)
Definition list_remove (thr : tid) : M unit :=
  fun k =>
    match kt_qlink (threads k thr) with
    | None => Panic k
    | Some q' =>
        let tq := queues k q' in
        Done tt
          (with_thread
             (with_queue k q'
                (mk_ktqueue (List.filter (fun t => negb (Nat.eqb t thr)) (tq_list tq))
                   (tq_size tq)))
             thr (set_kt_qlink (threads k thr) None))
    end.

Definition set_wchan (thr : tid) (w : option qid) : M unit :=
  modify (fun k => with_thread k thr (set_kt_wchan (threads k thr) w)).

Definition set_state (thr : tid) (s : kt_state_t) : M unit :=
  modify (fun k => with_thread k thr (set_kt_state (threads k thr) s)).

Definition set_cancelled (thr : tid) (c : Z) : M unit :=
  modify (fun k => with_thread k thr (set_kt_cancelled (threads k thr) c)).

(** [q->tq_size++] and [q->tq_size--] on an [int]. *)
Definition size_incr (q : qid) : M unit :=
  modify (fun k =>
    let tq := queues k q in
    with_queue k q (mk_ktqueue (tq_list tq) (wrap_int (tq_size tq + 1)))).

Definition size_decr (q : qid) : M unit :=
  modify (fun k =>
    let tq := queues k q in
    with_queue k q (mk_ktqueue (tq_list tq) (wrap_int (tq_size tq - 1)))).

(** *** Private queue functions *)

Definition ktqueue_enqueue (q : qid) (thr : tid) : M unit :=
  wchan <- gets (fun k => kt_wchan (threads k thr)) ;;
  KASSERT (negb (is_some wchan)) ;;
  list_insert_head q thr ;;
  set_wchan thr (Some q) ;;
  size_incr q.

Definition ktqueue_dequeue (q : qid) : M (option tid) :=
  empty <- list_empty q ;;
  if empty then ret None
  else
    link <- list_tail q ;;
    match link with
    | None => panic
    | Some thr =>
        list_remove_tail q thr ;;
        set_wchan thr None ;;
        size_decr q ;;
        ret (Some thr)
    end.

Definition ktqueue_remove (q : qid) (thr : tid) : M unit :=
  link <- gets (fun k => kt_qlink (threads k thr)) ;;
  KASSERT (is_some link) ;;
  list_remove thr ;;
  set_wchan thr None ;;
  size_decr q.

(** *** Public queue functions *)

Definition sched_queue_init (q : qid) : M unit :=
  modify (fun k => with_queue k q (mk_ktqueue [] 0)).

Definition sched_queue_empty (q : qid) : M bool := list_empty q.

(** *** Interrupts and context switches *)

(** [IPL_LOW] and [IPL_HIGH] come from [main/interrupt.h] and [EINTR]
    from [errno.h]; neither header is among the sources. *)
Class SchedConsts : Type := {
  IPL_LOW  : Z;
  IPL_HIGH : Z;
  EINTR    : Z
}.

(** Modelled from the spec: the interrupt primitives of
    [main/interrupt.h] are not among the sources; by the design document
    they are [get_ipl], [set_ipl(level)], [disable]/[enable] and [wait],
    which halts until the next interrupt, atomically with enabling
    interrupts. *)
Definition intr_getipl : M Z := gets ipl.
Definition intr_setipl (level : Z) : M unit :=
  modify (fun k => with_ipl k level).
Definition intr_disable : M unit := modify (fun k => with_intr k false).
Definition intr_wait : M unit :=
  fun k => Yield IntrWait (with_intr k true) (fun k' => Done tt k').

(** Modelled from the spec: [context_switch] is "the opaque
    context-switch primitive between the outgoing and incoming
    contexts"; control comes back to the outgoing thread later, on the
    kernel state of that time. *)
Definition context_switch (old : option tid) (new : tid) : M unit :=
  fun k => Yield (CtxSwitch old new) k (fun k' => Done tt k').

Section Public.
Context `{SchedConsts}.

Definition sched_make_runnable (thr : tid) : M unit :=
  old_ipl <- intr_getipl ;;
  intr_setipl IPL_HIGH ;;
  set_state thr KT_RUN ;;
  ktqueue_enqueue kt_runq thr ;;
  intr_setipl old_ipl.

(** The [while] loop of [sched_switch]; [fuel] bounds the number of
    interrupts waited for. *)
Fixpoint sched_switch_wait (fuel : nat) : M unit :=
  empty <- sched_queue_empty kt_runq ;;
  if empty then
    match fuel with
    | O => fun k => Spin k
    | S fuel' =>
        intr_disable ;;
        intr_setipl IPL_LOW ;;
        intr_wait ;;
        intr_setipl IPL_HIGH ;;
        sched_switch_wait fuel'
    end
  else ret tt.

Definition sched_switch (fuel : nat) : M unit :=
  old_ipl <- intr_getipl ;;
  intr_setipl IPL_HIGH ;;
  sched_switch_wait fuel ;;
  new_kthr <- ktqueue_dequeue kt_runq ;;
  old_kthr <- gets curthr ;;
  match new_kthr with
  | None => panic
  | Some new =>
      modify (fun k => with_current k (Some new) (Some (kt_proc (threads k new)))) ;;
      context_switch old_kthr new ;;
      intr_setipl old_ipl
  end.

Definition sched_sleep_on (fuel : nat) (q : qid) : M unit :=
  cur <- gets curthr ;;
  match cur with
  | None => panic
  | Some thr =>
      set_state thr KT_SLEEP ;;
      ktqueue_enqueue q thr ;;
      sched_switch fuel
  end.

Definition sched_cancellable_sleep_on (fuel : nat) (q : qid) : M Z :=
  cur <- gets curthr ;;
  match cur with
  | None => panic
  | Some thr =>
      set_state thr KT_SLEEP_CANCELLABLE ;;
      cancelled <- gets (fun k => kt_cancelled (threads k thr)) ;;
      if 1 =? cancelled then ret EINTR
      else
        ktqueue_enqueue q thr ;;
        sched_switch fuel ;;
        ret 0
  end.

Definition sched_wakeup_on (q : qid) : M (option tid) :=
  empty <- sched_queue_empty q ;;
  if empty then ret None
  else
    kthr_tmp <- ktqueue_dequeue q ;;
    match kthr_tmp with
    | None => panic
    | Some thr => sched_make_runnable thr ;; ret (Some thr)
    end.

(** The [while] loop of [sched_broadcast_on], cut off after [fuel]
    rounds. *)
Fixpoint sched_broadcast_on (fuel : nat) (q : qid) : M unit :=
  empty <- sched_queue_empty q ;;
  if empty then ret tt
  else
    match fuel with
    | O => fun k => Spin k
    | S fuel' =>
        kthr_tmp <- sched_wakeup_on q ;;
        sched_broadcast_on fuel' q
    end.

(** The same loop, handing back the values [kthr_tmp] takes, in
    order. *)
Fixpoint sched_broadcast_on_woken (fuel : nat) (q : qid) : M (list tid) :=
  empty <- sched_queue_empty q ;;
  if empty then ret []
  else
    match fuel with
    | O => fun k => Spin k
    | S fuel' =>
        kthr_tmp <- sched_wakeup_on q ;;
        woken <- sched_broadcast_on_woken fuel' q ;;
        ret (match kthr_tmp with Some t => t :: woken | None => woken end)
    end.

(** The [default] branch is the code as written.  In the
    [KT_SLEEP_CANCELLABLE] branch the source calls
    [ktqueue_dequeue(&kthr->kt_wchan, kthr)], which does not fit the
    one-parameter [ktqueue_dequeue] above, so that this branch has no
    embedding: it is read as the function the call names,
    [ktqueue_dequeue], on the wait channel of the thread (a null wait
    channel stopping the kernel).  Only the trace of C5 runs this
    branch; every other statement about [sched_cancel] is for threads
    that are not in a cancellable sleep. *)
Definition sched_cancel (kthr : tid) : M unit :=
  state <- gets (fun k => kt_state (threads k kthr)) ;;
  match state with
  | KT_SLEEP_CANCELLABLE =>
      set_cancelled kthr 1 ;;
      wchan <- gets (fun k => kt_wchan (threads k kthr)) ;;
      match wchan with
      | None => panic
      | Some q =>
          ktqueue_dequeue q ;;
          sched_make_runnable kthr
      end
  | _ => set_cancelled kthr 1
  end.

(** Enqueueing the threads [thrs] on [q], one call of [ktqueue_enqueue]
    after the other. *)
Fixpoint enqueue_all (q : qid) (thrs : list tid) : M unit :=
  match thrs with
  | [] => ret tt
  | thr :: rest => ktqueue_enqueue q thr ;; enqueue_all q rest
  end.

End Public.

(** *** The queue invariants *)

(** A thread is linked on a queue when it is on the list of the
    queue. *)
Definition linked_on (k : kernel) (thr : tid) (q : qid) : Prop :=
  In thr (tq_list (queues k q)).

(** The two invariants of the design document ([wchan_linked] and
    [size_counts]), with what the representation adds: a link is spliced
    into one place of one list, namely the list it records, and the
    counter is an [int]. *)
Record queues_ok (k : kernel) : Prop := mk_queues_ok {
  wchan_linked :
    forall thr q, kt_wchan (threads k thr) = Some q <-> linked_on k thr q;
  size_counts :
    forall q, tq_size (queues k q) = Z.of_nat (length (tq_list (queues k q)));
  link_once :
    forall q, List.NoDup (tq_list (queues k q));
  qlink_linked :
    forall thr q, kt_qlink (threads k thr) = Some q <-> linked_on k thr q;
  size_int :
    forall q, tq_size (queues k q) <= INT_MAX
}.

(** [k'] is [k] with thread [thr] replaced by [th'] and queue [q]
    replaced by [tq']. *)
Record updated (k k' : kernel) (thr : tid) (th' : kthread)
    (q : qid) (tq' : ktqueue) : Prop := mk_updated {
  upd_thread  : threads k' thr = th';
  upd_threads : forall t, t <> thr -> threads k' t = threads k t;
  upd_queue   : queues k' q = tq';
  upd_queues  : forall q0, q0 <> q -> queues k' q0 = queues k q0
}.

(** [ensures I Q o]: [I] holds of the kernel state wherever the outcome
    [o] stops or yields, and [Q] of the value and the kernel state with
    which it returns, as long as the kernel state found on coming back
    from a yield satisfies [I]. *)
Fixpoint ensures {A : Type} (I : kernel -> Prop) (Q : A -> kernel -> Prop)
    (o : outcome A) : Prop :=
  match o with
  | Done a k => Q a k
  | Panic k => I k
  | Yield _ k resume => I k /\ forall k', I k' -> ensures I Q (resume k')
  | Spin k => I k
  end.

(** A property holds of every kernel state an outcome leaves behind:
    when it returns or stops, at every yield, and, provided the kernel
    state found on coming back has the property, from there on. *)
Definition always {A : Type} (P : kernel -> Prop) (o : outcome A) : Prop :=
  ensures P (fun _ k => P k) o.

(** Every value an outcome returns satisfies [Q], whatever the kernel
    states found on coming back from its yields. *)
Definition returns {A : Type} (Q : A -> Prop) (o : outcome A) : Prop :=
  ensures (fun _ => True) (fun a _ => Q a) o.

(** Queue [q] has room for [n] more threads before its counter
    overflows. *)
Definition room (k : kernel) (q : qid) (n : Z) : Prop :=
  Z.of_nat (length (tq_list (queues k q))) + n <= INT_MAX.

(** *** Start-up and the run queue *)

(** [sched_init], run once at boot. *)
Definition sched_init : M unit := sched_queue_init kt_runq.

Section RunQueue.
Context `{SchedConsts}.

(** Making the threads [thrs] runnable, one call of
    [sched_make_runnable] after the other. *)
Fixpoint make_runnable_all (thrs : list tid) : M unit :=
  match thrs with
  | [] => ret tt
  | thr :: rest => sched_make_runnable thr ;; make_runnable_all rest
  end.

End RunQueue.

(** Every thread on the run queue is in the state [KT_RUN]. *)
Definition runq_runnable (k : kernel) : Prop :=
  forall thr, In thr (tq_list (queues k kt_runq)) ->
              kt_state (threads k thr) = KT_RUN.

(** [switches I Y o]: at every [context_switch] the outcome [o] makes,
    [Y] holds of the thread switched to and of the kernel state of that
    moment, as long as the kernel state found on coming back from a
    yield satisfies [I]. *)
Fixpoint switches {A : Type} (I : kernel -> Prop)
    (Y : tid -> kernel -> Prop) (o : outcome A) : Prop :=
  match o with
  | Yield y k resume =>
      match y with
      | CtxSwitch _ new => Y new k
      | IntrWait => True
      end /\ forall k', I k' -> switches I Y (resume k')
  | _ => True
  end.

(** *** Sample kernel states *)

Definition weenix_consts : SchedConsts :=
  {| IPL_LOW := 0; IPL_HIGH := 15; EINTR := 4 |}.

Definition idle_thread : kthread := mk_kthread KT_NO_STATE 0 None None 0%nat.

(** Thread [1] runs; thread [4] waits on the run queue; threads [2] and
    [3] sleep cancellably on queue [1], thread [2] having gone to sleep
    first. *)
Definition sample_kernel : kernel :=
  mk_kernel
    (fun t =>
       match t with
       | 1%nat => mk_kthread KT_RUN 0 None None 1%nat
       | 2%nat => mk_kthread KT_SLEEP_CANCELLABLE 0 (Some 1%nat) (Some 1%nat) 2%nat
       | 3%nat => mk_kthread KT_SLEEP_CANCELLABLE 0 (Some 1%nat) (Some 1%nat) 3%nat
       | 4%nat => mk_kthread KT_RUN 0 (Some kt_runq) (Some kt_runq) 4%nat
       | _ => idle_thread
       end)
    (fun q =>
       match q with
       | 0%nat => mk_ktqueue [4%nat] 1
       | 1%nat => mk_ktqueue [3%nat; 2%nat] 2
       | _ => mk_ktqueue [] 0
       end)
    (Some 1%nat) (Some 1%nat) 0 true.

(** The same kernel after [sched_cancel] on the running thread [1]. *)
Definition cancelled_kernel : kernel :=
  with_thread sample_kernel 1%nat
    (set_kt_cancelled (threads sample_kernel 1%nat) 1).

End Sched.
(** * Properties *)

(** ** Facts on machine integers and pages *)

Module MachineFacts.
Import Machine.

Lemma wrap32_small z : 0 <= z < 2 ^ 32 -> wrap32 z = z.
Proof. intros H. unfold wrap32. apply Z.mod_small. exact H. Qed.

Lemma wrap_int_small z : - 2 ^ 31 <= z <= INT_MAX -> wrap_int z = z.
Proof.
  unfold wrap_int, INT_MAX. intros H.
  rewrite Z.mod_small; lia.
Qed.

Lemma ADDR_TO_PN_div x : ADDR_TO_PN x = page_of x.
Proof.
  unfold ADDR_TO_PN, page_of, PAGE_SHIFT.
  rewrite Z.shiftr_div_pow2 by lia. reflexivity.
Qed.

Lemma page_of_bounds x : 0 <= x < 2 ^ 32 -> 0 <= page_of x < 2 ^ 20.
Proof.
  intros [H0 H1]. unfold page_of. split.
  - apply Z.div_pos; lia.
  - apply Z.div_lt_upper_bound; lia.
Qed.

Lemma page_of_mono x y : x <= y -> page_of x <= page_of y.
Proof. intros H. unfold page_of. apply Z.div_le_mono; lia. Qed.

Lemma PAGE_ALIGN_DOWN_PN x : PAGE_ALIGN_DOWN x = PN_TO_ADDR (ADDR_TO_PN x).
Proof.
  unfold PAGE_ALIGN_DOWN, PN_TO_ADDR, ADDR_TO_PN, wrap32.
  replace (Z.lnot (PAGE_SIZE - 1) mod 2 ^ 32)
    with (Z.shiftl (Z.ones 20) PAGE_SHIFT) by reflexivity.
  unfold PAGE_SHIFT.
  apply Z.bits_inj'. intros n Hn.
  rewrite Z.land_spec.
  destruct (Z.ltb_spec n 32) as [Hlt | Hge].
  - rewrite Z.mod_pow2_bits_low by lia.
    destruct (Z.ltb_spec n 12) as [Hlow | Hhigh].
    + rewrite !Z.shiftl_spec_low by lia. apply andb_false_r.
    + rewrite !Z.shiftl_spec by lia. rewrite Z.shiftr_spec by lia.
      rewrite Z.ones_spec_low by lia. rewrite andb_true_r.
      f_equal. lia.
  - rewrite Z.mod_pow2_bits_high by lia.
    rewrite Z.shiftl_spec by lia. rewrite Z.ones_spec_high by lia.
    apply andb_false_r.
Qed.

Lemma lopage_page_of x :
  0 <= x < 2 ^ 32 -> ADDR_TO_PN (PAGE_ALIGN_DOWN x) = page_of x.
Proof.
  intros Hx. unfold ADDR_TO_PN, PAGE_ALIGN_DOWN.
  rewrite Z.shiftr_land.
  replace (Z.shiftr (wrap32 (Z.lnot (PAGE_SIZE - 1))) PAGE_SHIFT)
    with (Z.ones 20) by reflexivity.
  rewrite Z.land_ones by lia.
  fold (ADDR_TO_PN x). rewrite ADDR_TO_PN_div.
  apply Z.mod_small. apply page_of_bounds; exact Hx.
Qed.

End MachineFacts.

(** ** Facts on address-space maps *)

Module VmFacts.
Import Machine Vm MachineFacts.

Lemma vmmap_lookup_Some map vfn i a :
  vmmap_lookup map vfn = Some (i, a) ->
  map !! i = Some a /\ area_contains vfn a.
Proof.
  unfold vmmap_lookup. intros H.
  apply list_find_Some in H. tauto.
Qed.

Lemma vmmap_lookup_None map vfn :
  vmmap_lookup map vfn = None <->
  forall a, In a map -> ~ area_contains vfn a.
Proof.
  unfold vmmap_lookup. rewrite list_find_None, List.Forall_forall.
  split; intros H a Ha; apply H; exact Ha.
Qed.

Lemma vmmap_is_range_empty_spec map lo n :
  0 <= n ->
  vmmap_is_range_empty map lo n = true <->
  forall p, lo <= p < lo + n -> vmmap_lookup map p = None.
Proof.
  intros Hn. unfold vmmap_is_range_empty.
  rewrite forallb_forall. split.
  - intros H p Hp.
    specialize (H (Z.to_nat (p - lo))).
    rewrite Z2Nat.id in H by lia.
    replace (lo + (p - lo)) with p in H by lia.
    rewrite bool_decide_eq_true in H. apply H.
    apply in_seq. lia.
  - intros H k Hk. apply in_seq in Hk.
    rewrite bool_decide_eq_true. apply H. lia.
Qed.

End VmFacts.

(** ** The page-fault handler *)

Module PagefaultSpec.
Import Machine Vm Pagefault MachineFacts VmFacts.

Section Handler.
Context `{FaultConsts} `{FaultEnv}.

(** The handler stops at once, with no call made, as soon as one of the
    three permission tests fails. *)
Lemma handle_pagefault_denied p vaddr cause i area :
  vmmap_lookup (p_vmmap p) (ADDR_TO_PN vaddr) = Some (i, area) ->
  (Z.land cause FAULT_WRITE = 0 /\ Z.land (vma_prot area) PROT_READ = 0) \/
  (Z.land cause FAULT_WRITE <> 0 /\ Z.land (vma_prot area) PROT_WRITE = 0) \/
  (Z.land cause FAULT_EXEC <> 0 /\ Z.land (vma_prot area) PROT_EXEC = 0) ->
  handle_pagefault p vaddr cause = ([], inl (Exited EFAULT)).
Proof.
  intros Hl Hperm. unfold handle_pagefault. rewrite Hl.
  unfold truthy. cbn [mbind M_bind mret M_ret].
  destruct (Z.eqb_spec (Z.land cause FAULT_WRITE) 0) as [Hw | Hw];
    destruct (Z.eqb_spec (Z.land (vma_prot area) PROT_READ) 0) as [Hr | Hr];
    destruct (Z.eqb_spec (Z.land (vma_prot area) PROT_WRITE) 0) as [Hpw | Hpw];
    destruct (Z.eqb_spec (Z.land cause FAULT_EXEC) 0) as [Hx | Hx];
    destruct (Z.eqb_spec (Z.land (vma_prot area) PROT_EXEC) 0) as [Hpx | Hpx];
    try reflexivity; exfalso; intuition congruence.
Qed.

(** C1. For every fault [(vaddr, cause)] the handler ends the current
    process with status [EFAULT], before any call to the memory-object
    lookup (the list of calls is empty), when no area of the map
    contains the faulting page, and when the area containing it lacks
    the permission the cause asks for: [PROT_READ] when the fault is not
    a write fault, [PROT_WRITE] when it is a write fault, [PROT_EXEC]
    when it is an exec fault. *)
Theorem handle_pagefault_efault (p : proc) (vaddr cause : Z) :
  ((forall a, In a (p_vmmap p) -> ~ area_contains (ADDR_TO_PN vaddr) a) ->
   handle_pagefault p vaddr cause = ([], inl (Exited EFAULT)))
  /\
  (forall i area,
     vmmap_lookup (p_vmmap p) (ADDR_TO_PN vaddr) = Some (i, area) ->
     (Z.land cause FAULT_WRITE = 0 -> Z.land (vma_prot area) PROT_READ = 0 ->
      handle_pagefault p vaddr cause = ([], inl (Exited EFAULT)))
     /\
     (Z.land cause FAULT_WRITE <> 0 -> Z.land (vma_prot area) PROT_WRITE = 0 ->
      handle_pagefault p vaddr cause = ([], inl (Exited EFAULT)))
     /\
     (Z.land cause FAULT_EXEC <> 0 -> Z.land (vma_prot area) PROT_EXEC = 0 ->
      handle_pagefault p vaddr cause = ([], inl (Exited EFAULT)))).
Proof.
  split.
  - intros Hnone. apply vmmap_lookup_None in Hnone.
    unfold handle_pagefault. rewrite Hnone. reflexivity.
  - intros i area Hl.
    repeat split; intros; eapply handle_pagefault_denied; eauto.
Qed.

Ltac split_handler Hrun :=
  unfold truthy, KASSERT, do_exit, call in Hrun |- *;
  repeat
    (cbn [mbind M_bind mret M_ret negb fst snd app] in Hrun;
     change (0 =? 0) with true in Hrun;
     change (1 =? 0) with false in Hrun;
     match type of Hrun with
     | context [match vma_obj ?a with _ => _ end] =>
         destruct (vma_obj a) eqn:?
     | context [pframe_lookup ?o ?i ?f] =>
         destruct (pframe_lookup o i f) as [? [?|]] eqn:?
     | context [?x =? 0] => destruct (x =? 0) eqn:?
     | context [?x <? 0] => destruct (x <? 0) eqn:?
     | context [if ?b then _ else _] => destruct b eqn:?
     end;
     try discriminate Hrun).

(** C2. On the successful path, that is for a fault on a page that an
    area with an object holds and with the permissions the cause asks
    for, the handler calls the memory-object lookup on the object of
    the area with the index [pagenum - vma_start + vma_off] (in
    [uint32_t] arithmetic) and with [forwrite] set exactly for a write
    fault.  When the lookup answers [0] with a frame that passes the
    assertions of the handler, the handler returns, having then called
    [pframe_dirty] on that frame exactly when [forwrite] is set, and
    last [pt_map] for the faulting page with the page-directory flags
    [PD_PRESENT | PD_USER] and the page-table flags
    [PT_PRESENT | PT_USER], each with the write flag added exactly for a
    write fault.  When the lookup answers with a negative error the
    handler ends the process with [EFAULT] without a further call.  No
    run of the handler returns with other calls than these. *)
Theorem handle_pagefault_success (p : proc) (vaddr cause : Z) (i : nat)
    (area : vmarea) (obj : mmobj) :
  vmmap_lookup (p_vmmap p) (ADDR_TO_PN vaddr) = Some (i, area) ->
  (Z.land cause FAULT_WRITE = 0 -> Z.land (vma_prot area) PROT_READ <> 0) ->
  (Z.land cause FAULT_WRITE <> 0 -> Z.land (vma_prot area) PROT_WRITE <> 0) ->
  (Z.land cause FAULT_EXEC <> 0 -> Z.land (vma_prot area) PROT_EXEC <> 0) ->
  vma_obj area = Some obj ->
  let write := truthy (Z.land cause FAULT_WRITE) in
  let forwrite := if write then 1 else 0 in
  let exact_idx := ADDR_TO_PN vaddr - vma_start area + vma_off area in
  let idx := wrap32 exact_idx in
  let pdflags := if write then Z.lor (Z.lor PD_PRESENT PD_USER) PD_WRITE
                 else Z.lor PD_PRESENT PD_USER in
  let ptflags := if write then Z.lor (Z.lor PT_PRESENT PT_USER) PT_WRITE
                 else Z.lor PT_PRESENT PT_USER in
  let page := PN_TO_ADDR (ADDR_TO_PN vaddr) in
  let calls pf :=
    EvLookup obj idx forwrite
    :: (if write then [EvDirty pf] else [])
    ++ [EvPtMap (p_pagedir p) page (pt_virt_to_phys (pf_addr pf))
          pdflags ptflags] in
  (0 <= exact_idx < 2 ^ 32 -> idx = exact_idx)
  /\
  (forall pf,
     pframe_lookup obj idx forwrite = (0, Some pf) ->
     pf_addr pf <> 0 ->
     (write = true -> pf_obj pf = obj /\ pframe_dirty pf = 0) ->
     pt_map (p_pagedir p) page (pt_virt_to_phys (pf_addr pf)) pdflags ptflags
     = 0 ->
     handle_pagefault p vaddr cause = (calls pf, inr tt))
  /\
  (fst (pframe_lookup obj idx forwrite) < 0 ->
   handle_pagefault p vaddr cause
   = ([EvLookup obj idx forwrite], inl (Exited EFAULT)))
  /\
  (forall tr,
     handle_pagefault p vaddr cause = (tr, inr tt) ->
     exists pf,
       pframe_lookup obj idx forwrite = (0, Some pf) /\ tr = calls pf).
Proof.
  intros Hl Hr Hw Hx Hobj. cbv zeta.
  split; [intros Hsmall; apply wrap32_small; exact Hsmall|].
  unfold handle_pagefault. rewrite Hl. unfold truthy.
  cbn [mbind M_bind mret M_ret].
  rewrite PAGE_ALIGN_DOWN_PN, Z.eqb_refl.
  destruct (Z.eqb_spec (Z.land cause FAULT_WRITE) 0) as [Hcw | Hcw];
    destruct (Z.eqb_spec (Z.land cause FAULT_EXEC) 0) as [Hcx | Hcx];
    destruct (Z.eqb_spec (Z.land (vma_prot area) PROT_READ) 0) as [Hpr | Hpr];
    destruct (Z.eqb_spec (Z.land (vma_prot area) PROT_WRITE) 0) as [Hpw | Hpw];
    destruct (Z.eqb_spec (Z.land (vma_prot area) PROT_EXEC) 0) as [Hpx | Hpx];
    try (exfalso; intuition congruence);
    cbn [negb mbind M_bind mret M_ret do_exit KASSERT];
    rewrite Hobj; cbn [mbind M_bind mret M_ret];
    change (1 =? 0) with false; change (0 =? 0) with true; cbn [negb].
  all: split; [|split].
  (* the lookup answers with a frame *)
  all: try (intros pf Hlk Hnn Hwr Hmap; rewrite Hlk; unfold call, KASSERT;
            cbn [mbind M_bind mret M_ret app];
            change (0 <? 0) with false; change (0 =? 0) with true;
            cbn [mbind M_bind mret M_ret app];
            rewrite (proj2 (Z.eqb_neq _ _) Hnn);
            cbn [negb mbind M_bind mret M_ret app];
            try (destruct (Hwr eq_refl) as [Ho Hd];
                 rewrite (bool_decide_eq_true_2 _ (eq_sym Ho)), Hd);
            rewrite Hmap; reflexivity).
  (* the lookup answers with an error *)
  all: try (intros Herr;
            destruct (pframe_lookup _ _ _) as [err pfo]; cbn [fst] in Herr;
            unfold call, do_exit; cbn [mbind M_bind mret M_ret app];
            rewrite (proj2 (Z.ltb_lt _ _) Herr); reflexivity).
  (* the runs that return *)
  all: intros tr Hrun; split_handler Hrun.
  all: cbn in Hrun.
  all: match goal with
       | Hz : (?e =? 0) = true, Hlk : pframe_lookup _ _ _ = (?e, _) |- _ =>
           apply Z.eqb_eq in Hz; subst e
       end.
  all: eexists; split; [reflexivity|].
  all: injection Hrun as <-; reflexivity.
Qed.

Ltac read_tests :=
  repeat match goal with
         | Ht : (_ =? _) = true |- _ => apply Z.eqb_eq in Ht
         | Ht : (_ =? _) = false |- _ => apply Z.eqb_neq in Ht
         | Ht : (_ <? _) = true |- _ => apply Z.ltb_lt in Ht
         | Ht : (_ <? _) = false |- _ => apply Z.ltb_ge in Ht
         | Ht : bool_decide _ = true |- _ => apply bool_decide_eq_true in Ht
         end.

(** X7. The handler calls [pt_map] only for a frame it has checked:
    whatever the outcome, a call of [pt_map] in the trace comes after a
    lookup, the first call of the trace, that answered [0] with a frame
    whose address is not null; the mapping is made in the page directory
    of the process, for the page of the faulting address and the
    physical address of that frame; and on a write lookup the frame
    belongs to the object looked up and [pframe_dirty] has been called
    on it and has answered [0]. *)
Theorem handle_pagefault_maps_checked_frame (p : proc) (vaddr cause : Z)
    (tr : list event) (r : stop + unit) (pagedir va pa pdf ptf : Z) :
  handle_pagefault p vaddr cause = (tr, r) ->
  In (EvPtMap pagedir va pa pdf ptf) tr ->
  exists obj idx forwrite pf,
    hd_error tr = Some (EvLookup obj idx forwrite) /\
    pframe_lookup obj idx forwrite = (0, Some pf) /\
    pf_addr pf <> 0 /\
    pagedir = p_pagedir p /\
    va = PN_TO_ADDR (ADDR_TO_PN vaddr) /\
    va = PAGE_ALIGN_DOWN vaddr /\
    pa = pt_virt_to_phys (pf_addr pf) /\
    (forwrite <> 0 ->
     pf_obj pf = obj /\ pframe_dirty pf = 0 /\ In (EvDirty pf) tr).
Proof.
  intros Hrun Hin. unfold handle_pagefault in Hrun.
  destruct (vmmap_lookup (p_vmmap p) (ADDR_TO_PN vaddr))
    as [[i area]|] eqn:Hl;
    [|injection Hrun as <- _; destruct Hin].
  split_handler Hrun.
  all: cbn in Hrun; injection Hrun as <- <-.
  all: cbn in Hin.
  all: repeat (destruct Hin as [Hin | Hin]); try discriminate Hin;
    try contradiction.
  all: injection Hin as <- <- <- <- <-.
  all: read_tests; subst.
  all: eexists _, _, _, _.
  all: split; [reflexivity|].
  all: split; [eassumption|].
  all: repeat (split; [solve [auto]|]).
  all: try (intros Hfw; exfalso; apply Hfw; reflexivity).
  all: try (intros _; repeat split; auto).
  all: cbn; auto.
Qed.

(** X8. The handler ends the process with no status but [EFAULT], and
    it does so either before any call or right after a lookup that
    answered with a negative error: never once a frame has been dirtied
    or a mapping installed. *)
Theorem handle_pagefault_exit_status (p : proc) (vaddr cause : Z)
    (tr : list event) (status : Z) :
  handle_pagefault p vaddr cause = (tr, inl (Exited status)) ->
  status = EFAULT /\
  (tr = [] \/
   exists obj idx forwrite,
     tr = [EvLookup obj idx forwrite] /\
     fst (pframe_lookup obj idx forwrite) < 0).
Proof.
  intros Hrun. unfold handle_pagefault in Hrun.
  destruct (vmmap_lookup (p_vmmap p) (ADDR_TO_PN vaddr))
    as [[i area]|] eqn:Hl;
    [|injection Hrun as <- <-; auto].
  split_handler Hrun.
  all: cbn in Hrun; injection Hrun as <- <-.
  all: split; [reflexivity|].
  all: try (left; reflexivity).
  all: right; eexists _, _, _; split; [reflexivity|].
  all: match goal with
       | Hlk : pframe_lookup _ _ _ = _ |- _ => rewrite Hlk
       end.
  all: read_tests; cbn; assumption.
Qed.

End Handler.

(** Scenarios S4 and S3 of the design document, and an exec fault on a
    page that may only be read, with the constants of the kernel. *)
Lemma handle_pagefault_efault_witness :
  @handle_pagefault weenix_consts sample_env (sample_proc 1 5%nat)
    (25 * 4096) 4 = ([], inl (Exited 14))
  /\
  @handle_pagefault weenix_consts sample_env (sample_proc 1 5%nat)
    (10 * 4096 + 7) 6 = ([], inl (Exited 14))
  /\
  @handle_pagefault weenix_consts sample_env (sample_proc 1 5%nat)
    (10 * 4096 + 7) 20 = ([], inl (Exited 14)).
Proof.
  split; [|split].
  - apply (proj1 (@handle_pagefault_efault weenix_consts sample_env
                    (sample_proc 1 5%nat) (25 * 4096) 4)).
    intros a [<- | []]. unfold area_contains.
    change (ADDR_TO_PN (25 * 4096)) with 25. cbn [vma_start vma_end]. lia.
  - apply (proj1 (proj2 (proj2 (@handle_pagefault_efault weenix_consts
                    sample_env (sample_proc 1 5%nat) (10 * 4096 + 7) 6)
             0%nat (mk_vmarea 10 20 3 1 (Some 5%nat)) eq_refl))).
    + vm_compute. discriminate.
    + reflexivity.
  - apply (proj2 (proj2 (proj2 (@handle_pagefault_efault weenix_consts
                    sample_env (sample_proc 1 5%nat) (10 * 4096 + 7) 20)
             0%nat (mk_vmarea 10 20 3 1 (Some 5%nat)) eq_refl))).
    + vm_compute. discriminate.
    + reflexivity.
Defined.

(** Scenario S2 of the design document (write fault on a writable
    area), and a fault on an area whose object has no pages. *)
Lemma handle_pagefault_success_witness :
  @handle_pagefault weenix_consts sample_env (sample_proc 3 5%nat)
    (10 * 4096 + 7) 6
  = ([EvLookup 5%nat 3 1; EvDirty (mk_pframe 3222286336 5%nat);
      EvPtMap 77 40960 1060864 7 7], inr tt)
  /\
  @handle_pagefault weenix_consts sample_env (sample_proc 1 9%nat)
    (10 * 4096 + 7) 4
  = ([EvLookup 9%nat 3 0], inl (Exited 14)).
Proof.
  split.
  - apply (proj1 (proj2 (@handle_pagefault_success weenix_consts sample_env
                           (sample_proc 3 5%nat) (10 * 4096 + 7) 6
                           0%nat (mk_vmarea 10 20 3 3 (Some 5%nat)) 5%nat
                           eq_refl
                           ltac:(vm_compute; intros; lia)
                           ltac:(vm_compute; intros; lia)
                           ltac:(vm_compute; intros; lia)
                           eq_refl))
             (mk_pframe 3222286336 5%nat)).
    + reflexivity.
    + vm_compute. discriminate.
    + intros _. split; reflexivity.
    + reflexivity.
  - apply (proj1 (proj2 (proj2 (@handle_pagefault_success weenix_consts
                                  sample_env (sample_proc 1 9%nat)
                                  (10 * 4096 + 7) 4
                                  0%nat (mk_vmarea 10 20 3 1 (Some 9%nat))
                                  9%nat
                                  eq_refl
                                  ltac:(vm_compute; intros; lia)
                                  ltac:(vm_compute; intros; lia)
                                  ltac:(vm_compute; intros; lia)
                                  eq_refl)))).
    vm_compute. reflexivity.
Defined.

(** The mapping installed in scenario S2. *)
Lemma handle_pagefault_maps_checked_frame_witness :
  exists pf,
    @pframe_lookup sample_env 5%nat 3 1 = (0, Some pf) /\
    pf_addr pf <> 0 /\
    1060864 = @pt_virt_to_phys sample_env (pf_addr pf) /\
    pf_obj pf = 5%nat.
Proof.
  destruct (@handle_pagefault_maps_checked_frame weenix_consts sample_env
              (sample_proc 3 5%nat) (10 * 4096 + 7) 6
              [EvLookup 5%nat 3 1; EvDirty (mk_pframe 3222286336 5%nat);
               EvPtMap 77 40960 1060864 7 7]
              (inr tt) 77 40960 1060864 7 7 eq_refl
              ltac:(right; right; left; reflexivity))
    as (obj & idx & fw & pf & Hhd & Hlk & Hnn & _ & _ & _ & Hpa & Hw).
  injection Hhd as <- <- <-.
  exists pf. split; [exact Hlk|]. split; [exact Hnn|]. split; [exact Hpa|].
  apply Hw. discriminate.
Defined.

(** The fault on the object without pages. *)
Lemma handle_pagefault_exit_status_witness :
  14 = @EFAULT weenix_consts /\
  ([EvLookup 9%nat 3 0] = [] \/
   exists obj idx forwrite,
     [EvLookup 9%nat 3 0] = [EvLookup obj idx forwrite] /\
     fst (@pframe_lookup sample_env obj idx forwrite) < 0).
Proof.
  exact (@handle_pagefault_exit_status weenix_consts sample_env
           (sample_proc 1 9%nat) (10 * 4096 + 7) 4 [EvLookup 9%nat 3 0] 14
           eq_refl).
Defined.

End PagefaultSpec.

(** ** The heap break *)

Module BrkSpec.
Import Machine Vm Brk MachineFacts VmFacts.

Section DoBrk.
Variables USER_MEM_HIGH ENOMEM : Z.

Local Abbreviation do_brk := (do_brk USER_MEM_HIGH ENOMEM).

Lemma vmmap_is_range_empty_iff map lo n :
  0 <= n ->
  vmmap_is_range_empty map lo n = true <-> range_empty map lo (lo + n).
Proof.
  intros Hn. rewrite vmmap_is_range_empty_spec by exact Hn.
  unfold range_empty. split.
  - intros Hl pg Hpg. apply vmmap_lookup_None. apply Hl. exact Hpg.
  - intros Hr pg Hpg. apply vmmap_lookup_None. apply Hr. exact Hpg.
Qed.

(** C3. For a non-null [addr] with [start_brk <= addr < USER_MEM_HIGH]
    that differs from the current break, and [area] the area holding the
    page of the start break, let [new_end_page = page_of (addr - 1) + 1].
    If [new_end_page <= vma_end area], [do_brk] sets the end of the area
    to [new_end_page] (shrinking it); otherwise it makes the same
    assignment (growing the area) exactly when the page range
    [[vma_end area, new_end_page)] is empty in the map, and else returns
    [-ENOMEM] leaving the break and the map as they were.  On success
    the break of the process is [addr], which is also stored through
    [ret]. *)
Theorem do_brk_moves_break (addr : Z) (p : proc) (i : nat) (area : vmarea) :
  0 < addr < 2 ^ 32 ->
  0 <= p_start_brk p ->
  p_start_brk p <= addr < USER_MEM_HIGH ->
  addr <> p_brk p ->
  p_start_brk p <= p_brk p ->
  0 <= vma_end area ->
  vmmap_lookup (p_vmmap p) (page_of (p_start_brk p)) = Some (i, area) ->
  let new_end_page := page_of (addr - 1) + 1 in
  let moved :=
    set_p_brk
      (set_p_vmmap p (<[i := set_vma_end area new_end_page]> (p_vmmap p)))
      addr in
  (new_end_page <= vma_end area ->
   do_brk addr p = BrkReturn 0 (Some addr) moved)
  /\
  (vma_end area < new_end_page ->
   (range_empty (p_vmmap p) (vma_end area) new_end_page ->
    do_brk addr p = BrkReturn 0 (Some addr) moved)
   /\
   (~ range_empty (p_vmmap p) (vma_end area) new_end_page ->
    do_brk addr p = BrkReturn (- ENOMEM) None p))
  /\
  p_brk moved = addr.
Proof.
  intros Haddr Hsb0 Hrange Hne Hinv Hend Hl new_end_page moved.
  assert (Hhi : wrap32 (addr - 1) = addr - 1) by (apply wrap32_small; lia).
  assert (Hpg : 0 <= page_of (addr - 1) < 2 ^ 20)
    by (apply page_of_bounds; lia).
  assert (Hrun : do_brk addr p =
    if page_of (addr - 1) <? vma_end area
    then BrkReturn 0 (Some addr) moved
    else if vmmap_is_range_empty (p_vmmap p) (vma_end area)
              (wrap32 (page_of (addr - 1) - vma_end area + 1))
         then BrkReturn 0 (Some addr) moved
         else BrkReturn (- ENOMEM) None p).
  { unfold Brk.do_brk.
    destruct (Z.eqb_spec addr 0) as [? | _]; [lia|].
    destruct (Z.ltb_spec addr (p_start_brk p)) as [? | _]; [lia|].
    destruct (Z.leb_spec USER_MEM_HIGH addr) as [? | _]; [lia|].
    destruct (Z.eqb_spec addr (p_brk p)) as [? | _]; [contradiction|].
    destruct (Z.leb_spec (p_start_brk p) (p_brk p)) as [_ | ?]; [|lia].
    cbn [negb].
    rewrite lopage_page_of by lia. rewrite Hl.
    rewrite Hhi, ADDR_TO_PN_div.
    rewrite (wrap32_small (page_of (addr - 1) + 1)) by lia.
    reflexivity. }
  rewrite Hrun. subst new_end_page.
  split; [|split].
  - intros Hshrink.
    destruct (Z.ltb_spec (page_of (addr - 1)) (vma_end area)); [reflexivity|lia].
  - intros Hgrow.
    destruct (Z.ltb_spec (page_of (addr - 1)) (vma_end area)); [lia|].
    rewrite wrap32_small by lia.
    pose proof (vmmap_is_range_empty_iff (p_vmmap p) (vma_end area)
                  (page_of (addr - 1) - vma_end area + 1)) as Hiff.
    replace (vma_end area + (page_of (addr - 1) - vma_end area + 1))
      with (page_of (addr - 1) + 1) in Hiff by lia.
    split.
    + intros Hempty. apply Hiff in Hempty; [|lia]. rewrite Hempty. reflexivity.
    + intros Hfull.
      destruct (vmmap_is_range_empty (p_vmmap p) (vma_end area)
                  (page_of (addr - 1) - vma_end area + 1)); [|reflexivity].
      exfalso. apply Hfull. apply Hiff; [lia|reflexivity].
  - reflexivity.
Qed.

(** C4. [do_brk] with a null [addr] succeeds and hands back the current
    break; with a non-null [addr] below the start break, or at or above
    [USER_MEM_HIGH], it returns [-ENOMEM]; with [addr] the current break
    (of a process whose break lies between the start break and
    [USER_MEM_HIGH]) it succeeds, hands back [addr] and changes nothing;
    and whatever [addr] is, a call that returns returns [0] or
    [-ENOMEM], the latter with nothing stored through [ret] and the
    process unchanged. *)
Theorem do_brk_checks (addr : Z) (p : proc) :
  do_brk 0 p = BrkReturn 0 (Some (p_brk p)) p
  /\
  (addr <> 0 -> addr < p_start_brk p ->
   do_brk addr p = BrkReturn (- ENOMEM) None p)
  /\
  (addr <> 0 -> USER_MEM_HIGH <= addr ->
   do_brk addr p = BrkReturn (- ENOMEM) None p)
  /\
  (addr = p_brk p -> p_start_brk p <= p_brk p < USER_MEM_HIGH ->
   do_brk addr p = BrkReturn 0 (Some addr) p)
  /\
  (forall code ret p',
     do_brk addr p = BrkReturn code ret p' ->
     (code = 0 /\ exists b, ret = Some b)
     \/ (code = - ENOMEM /\ ret = None /\ p' = p)).
Proof.
  split; [reflexivity|].
  split; [|split; [|split]].
  - intros Hnn Hlow. unfold Brk.do_brk.
    destruct (Z.eqb_spec addr 0) as [? | _]; [contradiction|].
    destruct (Z.ltb_spec addr (p_start_brk p)) as [_ | ?]; [reflexivity|lia].
  - intros Hnn Hhigh. unfold Brk.do_brk.
    destruct (Z.eqb_spec addr 0) as [? | _]; [contradiction|].
    destruct (Z.ltb_spec addr (p_start_brk p)) as [_ | _]; [reflexivity|].
    destruct (Z.leb_spec USER_MEM_HIGH addr) as [_ | ?]; [reflexivity|lia].
  - intros -> Hinv. unfold Brk.do_brk.
    destruct (Z.eqb_spec (p_brk p) 0) as [Hz | _].
    + rewrite Hz. reflexivity.
    + destruct (Z.ltb_spec (p_brk p) (p_start_brk p)) as [? | _]; [lia|].
      destruct (Z.leb_spec USER_MEM_HIGH (p_brk p)) as [? | _]; [lia|].
      rewrite Z.eqb_refl. destruct p; reflexivity.
  - intros code ret p' Hrun. unfold Brk.do_brk in Hrun.
    repeat match type of Hrun with
           | context [match vmmap_lookup ?m ?v with _ => _ end] =>
               destruct (vmmap_lookup m v) as [[? ?]|]
           | context [if ?b then _ else _] => destruct b
           end;
      try discriminate Hrun; injection Hrun as <- <- <-; eauto.
Qed.

(** *** Further properties of [do_brk] *)

(** The page [do_brk] looks the heap area up with. *)
Local Abbreviation lopage p := (ADDR_TO_PN (PAGE_ALIGN_DOWN (p_start_brk p))).
Local Abbreviation hipage addr := (ADDR_TO_PN (wrap32 (addr - 1))).

Lemma hipage_bounds addr : 0 <= hipage addr < 2 ^ 20.
Proof.
  rewrite ADDR_TO_PN_div. apply page_of_bounds.
  unfold wrap32. apply Z.mod_pos_bound. lia.
Qed.

(** Every way [do_brk] returns: it leaves the process as it was, or it
    has moved the end of the area found for the start break. *)
Lemma do_brk_inv addr p code ret p' :
  do_brk addr p = BrkReturn code ret p' ->
  (p' = p /\
   ((code = - ENOMEM /\ ret = None /\ addr <> 0) \/
    (code = 0 /\ ret = Some (p_brk p) /\ (addr = 0 \/ addr = p_brk p))))
  \/
  (addr <> 0 /\ p_start_brk p <= addr < USER_MEM_HIGH /\
   addr <> p_brk p /\ p_start_brk p <= p_brk p /\
   code = 0 /\ ret = Some addr /\
   exists i area,
     vmmap_lookup (p_vmmap p) (lopage p) = Some (i, area) /\
     p' = set_p_brk
            (set_p_vmmap p
               (<[i := set_vma_end area (wrap32 (hipage addr + 1))]>
                  (p_vmmap p)))
            addr /\
     (hipage addr < vma_end area \/
      (vma_end area <= hipage addr /\
       vmmap_is_range_empty (p_vmmap p) (vma_end area)
         (wrap32 (hipage addr - vma_end area + 1)) = true))).
Proof.
  unfold Brk.do_brk. intros Hrun.
  destruct (Z.eqb_spec addr 0) as [Hz | Hnz].
  { injection Hrun as <- <- <-. left. split; [reflexivity|]. right. auto. }
  destruct (Z.ltb_spec addr (p_start_brk p)) as [Hlow | Hlow].
  { injection Hrun as <- <- <-. left. split; [reflexivity|]. left. auto. }
  destruct (Z.leb_spec USER_MEM_HIGH addr) as [Hhigh | Hhigh].
  { injection Hrun as <- <- <-. left. split; [reflexivity|]. left. auto. }
  destruct (Z.eqb_spec addr (p_brk p)) as [Heq | Hne].
  { injection Hrun as <- <- <-. left. split.
    - rewrite Heq. destruct p; reflexivity.
    - right. rewrite Heq. auto. }
  destruct (Z.leb_spec (p_start_brk p) (p_brk p)) as [Hinv | Hinv];
    cbn [negb] in Hrun; [|discriminate Hrun].
  destruct (vmmap_lookup (p_vmmap p) (lopage p)) as [[i area]|] eqn:Hl;
    [|discriminate Hrun].
  destruct (Z.ltb_spec (hipage addr) (vma_end area)) as [Hshrink | Hgrow].
  - injection Hrun as <- <- <-. right.
    repeat (split; [assumption || reflexivity || lia|]).
    exists i, area. repeat split. left. exact Hshrink.
  - destruct (vmmap_is_range_empty (p_vmmap p) (vma_end area)
                (wrap32 (hipage addr - vma_end area + 1))) eqn:Hempty.
    + injection Hrun as <- <- <-. right.
      repeat (split; [assumption || reflexivity || lia|]).
      exists i, area. repeat split. right. split; [exact Hgrow|exact Hempty].
    + injection Hrun as <- <- <-. left. split; [reflexivity|]. left. auto.
Qed.

(** X1. A call of [do_brk] that stores a break through [ret] for a
    non-null [addr] has made [addr] the break of the process: a
    following [do_brk(NULL)] hands back [addr], and a following
    [do_brk(addr)] succeeds again and changes nothing. *)
Theorem do_brk_then_query (addr : Z) (p p' : proc) (code b : Z) :
  addr <> 0 ->
  do_brk addr p = BrkReturn code (Some b) p' ->
  code = 0 /\ b = addr /\ p_brk p' = addr /\
  do_brk 0 p' = BrkReturn 0 (Some addr) p' /\
  do_brk addr p' = BrkReturn 0 (Some addr) p'.
Proof.
  intros Hnz Hrun.
  assert (Hfacts : code = 0 /\ b = addr /\ p_brk p' = addr /\
                   p_start_brk p' = p_start_brk p /\
                   p_start_brk p <= addr < USER_MEM_HIGH).
  { pose proof Hrun as Hrun0. unfold Brk.do_brk in Hrun0.
    destruct (do_brk_inv _ _ _ _ _ Hrun)
      as [[-> [(_ & Hnone & _) | (-> & Hret & [Hz | Heq])]]
         | (_ & Hr & _ & _ & -> & Hret & i & area & _ & -> & _)].
    - discriminate Hnone.
    - contradiction.
    - assert (b = addr) as -> by congruence.
      destruct (Z.eqb_spec addr 0) as [? | _]; [contradiction|].
      destruct (Z.ltb_spec addr (p_start_brk p)) as [? | ?];
        [discriminate Hrun0|].
      destruct (Z.leb_spec USER_MEM_HIGH addr) as [? | ?];
        [discriminate Hrun0|].
      repeat split; auto; lia.
    - assert (b = addr) as -> by congruence.
      repeat split; auto; apply Hr. }
  destruct Hfacts as (-> & -> & Hbrk & Hstart & Hr).
  repeat split; try assumption.
  - unfold Brk.do_brk. cbn. rewrite Hbrk. reflexivity.
  - unfold Brk.do_brk. rewrite Hstart, Hbrk.
    destruct (Z.eqb_spec addr 0) as [? | _]; [contradiction|].
    destruct (Z.ltb_spec addr (p_start_brk p)) as [? | _]; [lia|].
    destruct (Z.leb_spec USER_MEM_HIGH addr) as [? | _]; [lia|].
    rewrite Z.eqb_refl. rewrite <- Hbrk. destruct p'; reflexivity.
Qed.

(** X2. Whatever [do_brk] returns, it has not touched the start break
    or the page directory of the process, the map has as many areas as
    before, every area has kept its start, offset, protection and
    object, and an area that does not hold the page of the start break
    is exactly as it was. *)
Theorem do_brk_frame (addr : Z) (p p' : proc) (code : Z) (ret : option Z) :
  do_brk addr p = BrkReturn code ret p' ->
  p_start_brk p' = p_start_brk p /\
  p_pagedir p' = p_pagedir p /\
  length (p_vmmap p') = length (p_vmmap p) /\
  (forall (j : nat) (a : vmarea),
     p_vmmap p !! j = Some a ->
     exists a',
       p_vmmap p' !! j = Some a' /\
       vma_start a' = vma_start a /\ vma_off a' = vma_off a /\
       vma_prot a' = vma_prot a /\ vma_obj a' = vma_obj a /\
       (~ area_contains (lopage p) a -> a' = a)).
Proof.
  intros Hrun.
  destruct (do_brk_inv _ _ _ _ _ Hrun)
    as [[-> _] | (_ & _ & _ & _ & _ & _ & i & area & Hl & -> & _)].
  - repeat split; try reflexivity.
    intros j a Hj. exists a. repeat split; auto.
  - apply vmmap_lookup_Some in Hl. destruct Hl as [Hi Hin].
    unfold set_p_brk, set_p_vmmap. cbn [p_start_brk p_pagedir p_vmmap p_brk].
    unfold vmmap in *.
    repeat split; try reflexivity.
    + apply length_insert.
    + intros j a Hj. destruct (Nat.eq_dec i j) as [<- | Hne].
      * rewrite Hi in Hj. injection Hj as <-.
        eexists. split.
        -- apply list_lookup_insert_eq. eapply lookup_lt_Some. exact Hi.
        -- cbn. repeat split; auto. intros Hnot. contradiction.
      * exists a. rewrite list_lookup_insert_ne by exact Hne.
        repeat split; auto.
Qed.

Lemma moved_end_exact addr :
  wrap32 (hipage addr + 1) = hipage addr + 1.
Proof. pose proof (hipage_bounds addr). apply wrap32_small. lia. Qed.

Lemma lookup_In (map : list vmarea) (j : nat) (a : vmarea) :
  map !! j = Some a -> In a map.
Proof.
  intros Hj. apply list_elem_of_In. eapply list_elem_of_lookup_2. exact Hj.
Qed.

(** X3. If no two areas of the map overlap (and the ends of the areas
    are unsigned), no two areas overlap after [do_brk] has returned:
    the heap area only grows over pages that lie in no area. *)
Theorem do_brk_keeps_disjoint (addr : Z) (p p' : proc) (code : Z)
    (ret : option Z) :
  (forall j a, p_vmmap p !! j = Some a -> 0 <= vma_end a) ->
  areas_disjoint (p_vmmap p) ->
  do_brk addr p = BrkReturn code ret p' ->
  areas_disjoint (p_vmmap p').
Proof.
  intros Hpos Hdis Hrun.
  destruct (do_brk_inv _ _ _ _ _ Hrun)
    as [[-> _] | (_ & _ & _ & _ & _ & _ & i & area & Hl & -> & Hcase)];
    [exact Hdis|].
  apply vmmap_lookup_Some in Hl. destruct Hl as [Hi _].
  pose proof (hipage_bounds addr) as Hhp.
  pose proof (Hpos _ _ Hi) as Hend.
  unfold set_p_brk, set_p_vmmap. cbn [p_vmmap]. rewrite moved_end_exact.
  set (area' := set_vma_end area (hipage addr + 1)).
  assert (Hnew : forall pg b j,
             area_contains pg area' -> p_vmmap p !! j = Some b ->
             area_contains pg b -> i = j).
  { intros pg b j Hin' Hj Hinb.
    unfold area_contains in Hin'. cbn in Hin'.
    destruct (Z.lt_ge_cases pg (vma_end area)) as [Hold | Hfresh].
    - apply (Hdis i j area b pg Hi Hj); [|exact Hinb].
      unfold area_contains. lia.
    - exfalso. destruct Hcase as [Hshrink | [Hgrow Hempty]]; [lia|].
      rewrite wrap32_small in Hempty by lia.
      rewrite vmmap_is_range_empty_spec in Hempty by lia.
      specialize (Hempty pg ltac:(lia)).
      rewrite vmmap_lookup_None in Hempty.
      apply (Hempty b); [eapply lookup_In; exact Hj|exact Hinb]. }
  unfold vmmap in *.
  intros j1 j2 a b pg H1 H2 Hin1 Hin2.
  apply list_lookup_insert_Some in H1, H2.
  destruct H1 as [(<- & <- & _) | [Hne1 H1]];
    destruct H2 as [(<- & <- & _) | [Hne2 H2]].
  - reflexivity.
  - eapply Hnew; eauto.
  - symmetry. eapply Hnew; eauto.
  - eapply Hdis; eauto.
Qed.

(** X4. After [do_brk] has moved the break to an [addr] above the start
    break, the page of the start break is still found in the same area
    of the map, which now ends at [page_of (addr - 1) + 1]: it holds the
    pages from its start up to the page of the last heap byte. *)
Theorem do_brk_keeps_heap_area (addr : Z) (p p' : proc) (code b : Z)
    (i : nat) (area : vmarea) :
  0 < addr < 2 ^ 32 ->
  0 <= p_start_brk p ->
  p_start_brk p < addr ->
  addr <> p_brk p ->
  vmmap_lookup (p_vmmap p) (page_of (p_start_brk p)) = Some (i, area) ->
  do_brk addr p = BrkReturn code (Some b) p' ->
  let area' := set_vma_end area (page_of (addr - 1) + 1) in
  vmmap_lookup (p_vmmap p') (page_of (p_start_brk p')) = Some (i, area') /\
  (forall pg, vma_start area <= pg <= page_of (addr - 1) ->
              area_contains pg area') /\
  (forall pg, area_contains pg area' -> pg <= page_of (addr - 1)).
Proof.
  intros Haddr Hsb0 Hup Hne Hl Hrun area'.
  destruct (do_brk_inv _ _ _ _ _ Hrun)
    as [[_ [(_ & Hnone & _) | (_ & _ & [Hz | Heq])]]
       | (_ & _ & _ & _ & _ & _ & i0 & area0 & Hl0 & -> & _)];
    [discriminate Hnone | lia | contradiction |].
  rewrite lopage_page_of in Hl0 by lia.
  rewrite Hl in Hl0. injection Hl0 as <- <-.
  rewrite moved_end_exact, ADDR_TO_PN_div, wrap32_small by lia.
  fold area'.
  unfold set_p_brk, set_p_vmmap. cbn [p_vmmap p_start_brk].
  apply list_find_Some in Hl. destruct Hl as (Hi & Hin & Hfirst).
  assert (Hmono : page_of (p_start_brk p) <= page_of (addr - 1))
    by (apply page_of_mono; lia).
  assert (Hin' : forall pg, vma_start area <= pg <= page_of (addr - 1) ->
                            area_contains pg area').
  { intros pg Hpg. unfold area_contains, area'. cbn. lia. }
  split; [|split].
  - unfold vmmap_lookup, vmmap in *. apply list_find_Some.
    split; [|split].
    + apply list_lookup_insert_eq. eapply lookup_lt_Some. exact Hi.
    + apply Hin'. unfold area_contains in Hin. lia.
    + intros j y Hj Hlt. rewrite list_lookup_insert_ne in Hj by lia.
      eapply Hfirst; eauto.
  - exact Hin'.
  - intros pg Hpg. unfold area_contains, area' in Hpg. cbn in Hpg. lia.
Qed.

Lemma do_brk_no_area (addr : Z) (p : proc) :
  addr <> 0 -> p_start_brk p <= addr < USER_MEM_HIGH -> addr <> p_brk p ->
  vmmap_lookup (p_vmmap p) (lopage p) = None ->
  do_brk addr p = BrkPanic.
Proof.
  intros Hnz Hb Hne Hl. unfold Brk.do_brk.
  destruct (Z.eqb_spec addr 0) as [? | _]; [contradiction|].
  destruct (Z.ltb_spec addr (p_start_brk p)) as [? | _]; [lia|].
  destruct (Z.leb_spec USER_MEM_HIGH addr) as [? | _]; [lia|].
  destruct (Z.eqb_spec addr (p_brk p)) as [? | _]; [contradiction|].
  destruct (negb (p_start_brk p <=? p_brk p)); [reflexivity|].
  rewrite Hl. reflexivity.
Qed.

(** X5. [do_brk] stops the kernel in exactly two cases, both on the
    path that has to move the break (a non-null [addr] within bounds
    that is not the current break): the current break lies below the
    start break, or no area of the map holds the page of the start
    break. *)
Theorem do_brk_panics (addr : Z) (p : proc) :
  do_brk addr p = BrkPanic <->
  addr <> 0 /\ p_start_brk p <= addr < USER_MEM_HIGH /\ addr <> p_brk p /\
  (p_brk p < p_start_brk p \/
   forall a, In a (p_vmmap p) -> ~ area_contains (lopage p) a).
Proof.
  unfold Brk.do_brk.
  destruct (Z.eqb_spec addr 0) as [Hz | Hnz];
    [split; [discriminate|intros [? _]; contradiction]|].
  destruct (Z.ltb_spec addr (p_start_brk p)) as [Hlow | Hlow];
    [split; [discriminate|intros (_ & ? & _); lia]|].
  destruct (Z.leb_spec USER_MEM_HIGH addr) as [Hhigh | Hhigh];
    [split; [discriminate|intros (_ & ? & _); lia]|].
  destruct (Z.eqb_spec addr (p_brk p)) as [Heq | Hne];
    [split; [discriminate|intros (_ & _ & ? & _); contradiction]|].
  destruct (Z.leb_spec (p_start_brk p) (p_brk p)) as [Hinv | Hinv];
    cbn [negb]; [|split; [intros _; repeat split; auto; lia|reflexivity]].
  destruct (vmmap_lookup (p_vmmap p) (lopage p)) as [[i area]|] eqn:Hl.
  - split.
    + intros Hrun. exfalso.
      destruct (hipage addr <? vma_end area); [discriminate Hrun|].
      destruct (vmmap_is_range_empty _ _ _); discriminate Hrun.
    + intros (_ & _ & _ & [Hbad | Hnone]); [lia|]. exfalso.
      apply vmmap_lookup_Some in Hl. destruct Hl as [Hi Hin].
      apply (Hnone area); [eapply lookup_In; exact Hi|exact Hin].
  - split; [|reflexivity]. intros _.
    repeat split; auto; try lia. right. apply vmmap_lookup_None. exact Hl.
Qed.

Lemma page_of_aligned_pred x :
  0 < x -> x mod 4096 = 0 -> page_of (x - 1) = page_of x - 1.
Proof.
  intros Hx Hal. unfold page_of.
  pose proof (Z.div_mod x 4096 ltac:(lia)) as Hdm. rewrite Hal in Hdm.
  symmetry. apply (Z.div_unique (x - 1) 4096 (x / 4096 - 1) 4095); lia.
Qed.

(** X6. Lowering the break to a start break that is page aligned cuts
    the page of the start break off the heap area: the call succeeds,
    the area found for the start break now ends at that page, and, the
    areas being disjoint, no area holds the page any more, so that every
    later call that would raise the break stops the kernel. *)
Theorem do_brk_to_aligned_start (p : proc) (i : nat) (area : vmarea) :
  0 < p_start_brk p < 2 ^ 32 ->
  p_start_brk p mod 4096 = 0 ->
  p_start_brk p < p_brk p ->
  p_start_brk p < USER_MEM_HIGH ->
  vmmap_lookup (p_vmmap p) (page_of (p_start_brk p)) = Some (i, area) ->
  areas_disjoint (p_vmmap p) ->
  exists p',
    do_brk (p_start_brk p) p = BrkReturn 0 (Some (p_start_brk p)) p' /\
    p_vmmap p' !! i = Some (set_vma_end area (page_of (p_start_brk p))) /\
    vmmap_lookup (p_vmmap p') (page_of (p_start_brk p)) = None /\
    (forall addr,
       p_start_brk p < addr < USER_MEM_HIGH -> do_brk addr p' = BrkPanic).
Proof.
  intros Hsb Hal Hbrk Hhigh Hl Hdis.
  pose proof Hl as Hl0. apply list_find_Some in Hl0.
  destruct Hl0 as (Hi & Hin & _). unfold area_contains in Hin.
  set (p' := set_p_brk
               (set_p_vmmap p
                  (<[i := set_vma_end area (page_of (p_start_brk p))]>
                     (p_vmmap p)))
               (p_start_brk p)).
  assert (Hrun : do_brk (p_start_brk p) p
                 = BrkReturn 0 (Some (p_start_brk p)) p').
  { unfold Brk.do_brk.
    destruct (Z.eqb_spec (p_start_brk p) 0) as [? | _]; [lia|].
    rewrite Z.ltb_irrefl.
    destruct (Z.leb_spec USER_MEM_HIGH (p_start_brk p)) as [? | _]; [lia|].
    destruct (Z.eqb_spec (p_start_brk p) (p_brk p)) as [? | _]; [lia|].
    destruct (Z.leb_spec (p_start_brk p) (p_brk p)) as [_ | ?]; [|lia].
    cbn [negb]. rewrite lopage_page_of by lia. rewrite Hl.
    rewrite moved_end_exact, ADDR_TO_PN_div, wrap32_small by lia.
    rewrite page_of_aligned_pred by lia.
    destruct (Z.ltb_spec (page_of (p_start_brk p) - 1) (vma_end area))
      as [_ | ?]; [|lia].
    replace (page_of (p_start_brk p) - 1 + 1) with (page_of (p_start_brk p))
      by lia.
    reflexivity. }
  assert (Hi' : p_vmmap p' !! i
                = Some (set_vma_end area (page_of (p_start_brk p)))).
  { subst p'. unfold set_p_brk, set_p_vmmap, vmmap in *. cbn [p_vmmap].
    apply list_lookup_insert_eq. eapply lookup_lt_Some. exact Hi. }
  assert (Hnone : vmmap_lookup (p_vmmap p') (page_of (p_start_brk p)) = None).
  { apply vmmap_lookup_None. intros a Ha Hina.
    apply list_elem_of_In, list_elem_of_lookup_1 in Ha. destruct Ha as [j Hj].
    subst p'. unfold set_p_brk, set_p_vmmap, vmmap in *. cbn [p_vmmap] in *.
    apply list_lookup_insert_Some in Hj.
    destruct Hj as [(<- & <- & _) | [Hne Hj]].
    - unfold area_contains in Hina. cbn in Hina. lia.
    - apply Hne. eapply (Hdis i j area a); eauto. }
  exists p'. split; [exact Hrun|]. split; [exact Hi'|]. split; [exact Hnone|].
  intros addr Haddr.
  assert (Hsame : p_start_brk p' = p_start_brk p) by reflexivity.
  assert (Hbrk' : p_brk p' = p_start_brk p) by reflexivity.
  apply do_brk_no_area; rewrite ?Hsame, ?Hbrk'; try lia.
  rewrite lopage_page_of by lia. exact Hnone.
Qed.

End DoBrk.

(** Scenarios S5 and S6 of the design document, and a shrinking call,
    with [USER_MEM_HIGH = 0xc0000000] and [ENOMEM = 12]. *)
Lemma do_brk_moves_break_witness :
  do_brk 3221225472 12 13568 (heap_proc [])
  = BrkReturn 0 (Some 13568)
      (mk_proc 13568 4096 [mk_vmarea 1 4 0 3 (Some 1%nat)] 77)
  /\
  do_brk 3221225472 12 13568 (heap_proc [mk_vmarea 3 5 0 1 (Some 2%nat)])
  = BrkReturn (- 12) None (heap_proc [mk_vmarea 3 5 0 1 (Some 2%nat)])
  /\
  do_brk 3221225472 12 5000
    (mk_proc 13568 4096 [mk_vmarea 1 4 0 3 (Some 1%nat)] 77)
  = BrkReturn 0 (Some 5000)
      (mk_proc 5000 4096 [mk_vmarea 1 2 0 3 (Some 1%nat)] 77).
Proof.
  split; [|split].
  - destruct (do_brk_moves_break 3221225472 12 13568 (heap_proc []) 0%nat
                (mk_vmarea 1 2 0 3 (Some 1%nat)))
      as (_ & Hgrow & _);
      [cbn; lia | cbn; lia | cbn; lia | cbn; lia | cbn; lia | cbn; lia
      | reflexivity |].
    apply Hgrow; [reflexivity|].
    intros pg Hpg a [<- | []]. unfold area_contains.
    change (page_of (13568 - 1) + 1) with 4 in Hpg.
    cbn [vma_start vma_end] in *. lia.
  - destruct (do_brk_moves_break 3221225472 12 13568
                (heap_proc [mk_vmarea 3 5 0 1 (Some 2%nat)]) 0%nat
                (mk_vmarea 1 2 0 3 (Some 1%nat)))
      as (_ & Hgrow & _);
      [cbn; lia | cbn; lia | cbn; lia | cbn; lia | cbn; lia | cbn; lia
      | reflexivity |].
    apply Hgrow; [reflexivity|].
    intros Hempty.
    apply (Hempty 3 ltac:(change (page_of (13568 - 1) + 1) with 4;
                            cbn [vma_end]; lia)
             (mk_vmarea 3 5 0 1 (Some 2%nat))).
    + right. left. reflexivity.
    + unfold area_contains. cbn [vma_start vma_end]. lia.
  - destruct (do_brk_moves_break 3221225472 12 5000
                (mk_proc 13568 4096 [mk_vmarea 1 4 0 3 (Some 1%nat)] 77)
                0%nat (mk_vmarea 1 4 0 3 (Some 1%nat)))
      as (Hshrink & _ & _);
      [cbn; lia | cbn; lia | cbn; lia | cbn; lia | cbn; lia | cbn; lia
      | reflexivity |].
    apply Hshrink.
    change (page_of (5000 - 1) + 1) with 2. cbn [vma_end]. lia.
Defined.

(** The error cases and the no-op at a process whose break is [0x3500]. *)
Lemma do_brk_checks_witness :
  do_brk 3221225472 12 100 (heap_proc []) = BrkReturn (- 12) None (heap_proc [])
  /\
  do_brk 3221225472 12 3221225472 (heap_proc [])
  = BrkReturn (- 12) None (heap_proc [])
  /\
  do_brk 3221225472 12 4096 (heap_proc []) = BrkReturn 0 (Some 4096) (heap_proc []).
Proof.
  split; [|split].
  - apply (proj1 (proj2 (do_brk_checks 3221225472 12 100 (heap_proc []))));
      cbn; lia.
  - apply (proj1 (proj2 (proj2
             (do_brk_checks 3221225472 12 3221225472 (heap_proc [])))));
      cbn; lia.
  - apply (proj1 (proj2 (proj2 (proj2
             (do_brk_checks 3221225472 12 4096 (heap_proc [])))))).
    + reflexivity.
    + cbn. lia.
Defined.

Lemma sample_maps_disjoint (lo hi : Z) (e : Z) :
  e <= lo ->
  areas_disjoint
    [mk_vmarea 1 e 0 3 (Some 1%nat); mk_vmarea lo hi 0 1 (Some 2%nat)].
Proof.
  intros He i j a b pg Hi Hj Ha Hb. unfold area_contains in *.
  destruct i as [|[|i]]; destruct j as [|[|j]]; cbn in Hi, Hj;
    try discriminate; try reflexivity;
    injection Hi as <-; injection Hj as <-; cbn in Ha, Hb; lia.
Qed.

Lemma do_brk_then_query_witness :
  do_brk 3221225472 12 0 (grown_proc [])
  = BrkReturn 0 (Some 13568) (grown_proc [])
  /\
  do_brk 3221225472 12 13568 (grown_proc [])
  = BrkReturn 0 (Some 13568) (grown_proc []).
Proof.
  destruct (do_brk_then_query 3221225472 12 13568 (heap_proc [])
              (grown_proc []) 0 13568 ltac:(lia) eq_refl)
    as (_ & _ & _ & Hget & Hagain).
  split; assumption.
Defined.

Lemma do_brk_frame_witness :
  p_start_brk (grown_proc [mk_vmarea 5 8 0 1 (Some 2%nat)]) = 4096
  /\
  exists a',
    p_vmmap (grown_proc [mk_vmarea 5 8 0 1 (Some 2%nat)]) !! 1%nat = Some a' /\
    (~ area_contains 1 (mk_vmarea 5 8 0 1 (Some 2%nat)) ->
     a' = mk_vmarea 5 8 0 1 (Some 2%nat)).
Proof.
  destruct (do_brk_frame 3221225472 12 13568
              (heap_proc [mk_vmarea 5 8 0 1 (Some 2%nat)])
              (grown_proc [mk_vmarea 5 8 0 1 (Some 2%nat)]) 0 (Some 13568)
              eq_refl)
    as (Hstart & _ & _ & Hareas).
  split; [exact Hstart|].
  destruct (Hareas 1%nat (mk_vmarea 5 8 0 1 (Some 2%nat)) eq_refl)
    as (a' & Ha' & _ & _ & _ & _ & Hsame).
  exists a'. split; assumption.
Defined.

Lemma do_brk_keeps_disjoint_witness :
  areas_disjoint (p_vmmap (grown_proc [mk_vmarea 5 8 0 1 (Some 2%nat)])).
Proof.
  apply (do_brk_keeps_disjoint 3221225472 12 13568
           (heap_proc [mk_vmarea 5 8 0 1 (Some 2%nat)])
           (grown_proc [mk_vmarea 5 8 0 1 (Some 2%nat)]) 0 (Some 13568)).
  - intros j a Hj. destruct j as [|[|j]]; cbn in Hj; try discriminate;
      injection Hj as <-; cbn; lia.
  - apply sample_maps_disjoint. lia.
  - reflexivity.
Defined.

Lemma do_brk_keeps_heap_area_witness :
  vmmap_lookup (p_vmmap (grown_proc [])) 1
  = Some (0%nat, mk_vmarea 1 4 0 3 (Some 1%nat))
  /\
  area_contains 3 (mk_vmarea 1 4 0 3 (Some 1%nat)).
Proof.
  destruct (do_brk_keeps_heap_area 3221225472 12 13568 (heap_proc [])
              (grown_proc []) 0 13568 0%nat (mk_vmarea 1 2 0 3 (Some 1%nat))
              ltac:(lia) ltac:(cbn; lia) ltac:(cbn; lia) ltac:(cbn; lia)
              eq_refl eq_refl)
    as (Hfind & Hin & _).
  split; [exact Hfind|].
  apply (Hin 3). change (page_of (13568 - 1)) with 3. cbn. lia.
Defined.

(** Lowering the break of the grown process back to [0x1000]. *)
Lemma do_brk_to_aligned_start_witness :
  exists p',
    do_brk 3221225472 12 4096 (grown_proc []) = BrkReturn 0 (Some 4096) p' /\
    vmmap_lookup (p_vmmap p') 1 = None /\
    do_brk 3221225472 12 13568 p' = BrkPanic.
Proof.
  destruct (do_brk_to_aligned_start 3221225472 12 (grown_proc []) 0%nat
              (mk_vmarea 1 4 0 3 (Some 1%nat))
              ltac:(cbn; lia) eq_refl ltac:(cbn; lia) ltac:(cbn; lia)
              eq_refl)
    as (p' & Hrun & _ & Hnone & Hpanic).
  - intros i j a b pg Hi Hj _ _.
    destruct i as [|i]; destruct j as [|j]; cbn in Hi, Hj;
      try discriminate; reflexivity.
  - exists p'. split; [exact Hrun|]. split; [exact Hnone|].
    apply Hpanic. cbn. lia.
Defined.

End BrkSpec.

(** ** The terminal layer *)

Module TtySpec.
Import Strings.Byte Tty.

Section Ops.
Context {D L : Type} `{tty_driver_ops D} `{tty_ldisc_ops L}.

(** [tty_echo] hands the driver the bytes of the string, one call of
    [provide_char] per byte, in order. *)
Lemma tty_echo_c_string (out : list byte) (driver : D) :
  tty_echo driver out = fold_left provide_char (c_string out) driver.
Proof.
  revert driver. induction out as [|c rest IH]; intros driver; cbn.
  - reflexivity.
  - destruct (Byte.eqb c x00); [reflexivity|]. cbn. apply IH.
Qed.

Lemma bytes_from_S (buff : Z -> byte) (i : Z) (n : nat) :
  bytes_from buff i (S n) = buff i :: bytes_from buff (i + 1) n.
Proof.
  unfold bytes_from. cbn [seq map]. f_equal.
  - f_equal. lia.
  - rewrite <- seq_shift, map_map. apply map_ext.
    intros k. f_equal. lia.
Qed.

Lemma byte_eqb_false (c : byte) : Byte.eqb c x00 = false -> c <> x00.
Proof.
  intros Hc ->. discriminate Hc.
Qed.

Lemma byte_eqb_true (c : byte) : Byte.eqb c x00 = true -> c = x00.
Proof. apply Byte.byte_dec_bl. Qed.

(** The loop stops after [m] bytes: none of them is null, and it did
    not reach [count] only because the next byte is null. *)
Lemma tty_write_loop_run (n : nat) (i : Z) (buff : Z -> byte)
    (ttyd : D) (ldisc : L) :
  exists m : nat,
    (m <= n)%nat /\
    (forall k, (k < m)%nat -> buff (i + Z.of_nat k) <> x00) /\
    ((m < n)%nat -> buff (i + Z.of_nat m) = x00) /\
    tty_write_loop n i buff ttyd ldisc
    = (i + Z.of_nat m,
       fst (feed (bytes_from buff i m) ttyd ldisc),
       snd (feed (bytes_from buff i m) ttyd ldisc)).
Proof.
  revert i ttyd ldisc. induction n as [|n IH]; intros i ttyd ldisc.
  - exists 0%nat. cbn. rewrite Z.add_0_r.
    repeat split; try lia.
  - cbn [tty_write_loop].
    destruct (Byte.eqb (buff i) x00) eqn:Hnull.
    + exists 0%nat. cbn. rewrite Z.add_0_r.
      repeat split; try lia.
      intros _. apply byte_eqb_true. exact Hnull.
    + destruct (process_char ldisc (buff i)) as [ldisc' s] eqn:Hpc.
      destruct (IH (i + 1) (tty_echo ttyd s) ldisc')
        as (m & Hle & Hnn & Hstop & Hrun).
      exists (S m). split; [lia|]. split; [|split].
      * intros k Hk. destruct k as [|k].
        -- rewrite Z.add_0_r. apply byte_eqb_false. exact Hnull.
        -- replace (i + Z.of_nat (S k)) with (i + 1 + Z.of_nat k) by lia.
           apply Hnn. lia.
      * intros Hlt.
        replace (i + Z.of_nat (S m)) with (i + 1 + Z.of_nat m) by lia.
        apply Hstop. lia.
      * rewrite Hrun, bytes_from_S. cbn [feed]. rewrite Hpc.
        rewrite <- tty_echo_c_string.
        f_equal. f_equal. lia.
Qed.

(** C9. For every buffer and count, [tty_write] on a device with a
    driver and a line discipline processes the bytes [buff[0 .. n)] in
    order, where [n <= count] and the run ends before [count] only at
    the first null byte: each of them goes through [process_char] and
    every byte of each returned string goes to [provide_char]; the value
    returned is [n], the number of bytes taken from the buffer. *)
Theorem tty_write_processes (tty : tty_device D L) (offset : Z)
    (buff : Z -> byte) (count : Z) (ttyd : D) (ldisc : L) :
  tty_driver tty = Some ttyd ->
  tty_ldisc tty = Some ldisc ->
  exists n : nat,
    Z.of_nat n <= Z.max 0 count /\
    (forall k, 0 <= k < Z.of_nat n -> buff k <> x00) /\
    (Z.of_nat n < count -> buff (Z.of_nat n) = x00) /\
    length (bytes_from buff 0 n) = n /\
    tty_write tty offset buff count
    = let '(blocked, token) := block_io ttyd in
      let '(ttyd', ldisc') := feed (bytes_from buff 0 n) blocked ldisc in
      Returned (Z.of_nat n,
                mk_tty (Some (unblock_io ttyd' token)) (Some ldisc')
                  (tty_id tty)).
Proof.
  intros Hd Hl. unfold tty_write. rewrite Hd, Hl.
  destruct (block_io ttyd) as [blocked token].
  destruct (tty_write_loop_run (Z.to_nat count) 0 buff blocked ldisc)
    as (m & Hle & Hnn & Hstop & Hrun).
  exists m. split; [lia|]. split; [|split; [|split]].
  - intros k Hk. specialize (Hnn (Z.to_nat k)).
    rewrite Z2Nat.id in Hnn by lia. apply Hnn. lia.
  - intros Hlt. apply Hstop. lia.
  - unfold bytes_from. rewrite length_map, length_seq. reflexivity.
  - rewrite Hrun.
    destruct (feed (bytes_from buff 0 m) blocked ldisc) as [ttyd' ldisc'].
    reflexivity.
Qed.

(** X9. [tty_echo] hands the driver the bytes of its string up to the
    first null byte and nothing after it: a string without a null byte
    goes to [provide_char] byte by byte, whatever follows a null byte is
    never shown to the driver, and echoing two strings one after the
    other is echoing them joined. *)
Theorem tty_echo_stops_at_null (s1 s2 : list byte) (driver : D) :
  Forall (fun c => c <> x00) s1 ->
  tty_echo driver s1 = fold_left provide_char s1 driver /\
  tty_echo driver (s1 ++ x00 :: s2) = fold_left provide_char s1 driver /\
  tty_echo driver (s1 ++ s2) = tty_echo (tty_echo driver s1) s2.
Proof.
  intros Hs1. revert driver.
  induction Hs1 as [|c s1 Hc Hs1 IH]; intros driver.
  - cbn. auto.
  - cbn [app tty_echo fold_left].
    destruct (Byte.eqb c x00) eqn:Heq;
      [apply byte_eqb_true in Heq; contradiction|].
    apply IH.
Qed.

(** X10. A write of no bytes ([count] not positive, or a buffer that
    starts with a null byte) returns [0]: nothing reaches
    [process_char] or [provide_char], the line discipline is as it was,
    and the driver has only been blocked and unblocked. *)
Theorem tty_write_nothing (tty : tty_device D L) (offset : Z)
    (buff : Z -> byte) (count : Z) (ttyd : D) (ldisc : L) :
  tty_driver tty = Some ttyd ->
  tty_ldisc tty = Some ldisc ->
  count <= 0 \/ buff 0 = x00 ->
  tty_write tty offset buff count
  = Returned (0, mk_tty (Some (unblock_io (fst (block_io ttyd))
                                 (snd (block_io ttyd))))
                   (Some ldisc) (tty_id tty)).
Proof.
  intros Hd Hl Hnone. unfold tty_write. rewrite Hd, Hl.
  destruct (block_io ttyd) as [blocked token]. cbn [fst snd].
  assert (Hloop : tty_write_loop (Z.to_nat count) 0 buff blocked ldisc
                  = (0, blocked, ldisc)).
  { destruct Hnone as [Hcount | Hnull].
    - replace (Z.to_nat count) with 0%nat by lia. reflexivity.
    - destruct (Z.to_nat count); cbn [tty_write_loop]; [reflexivity|].
      rewrite Hnull. reflexivity. }
  rewrite Hloop. reflexivity.
Qed.

End Ops.

Section Device.
Context {D L : Type} `{tty_driver_ops D} `{tty_ldisc_ops L}
        `{tty_ldisc_input_ops L}.
Variable MKDEVID : Z -> Z -> Z.
Variable TTY_MAJOR : Z.

(** X11. [tty_create] returns exactly when it is given a driver and
    memory; the device it returns has that driver, the id
    [MKDEVID(TTY_MAJOR, id)] (which is also the id of its byte device)
    and no line discipline, so that until one is attached
    [tty_write], [tty_read] and the key-press callback on it stop the
    kernel. *)
Theorem tty_create_no_ldisc (kmalloc : bool) (driver : option D) (id : Z) :
  (tty_create (L := L) MKDEVID TTY_MAJOR kmalloc driver id = Panicked <->
   driver = None \/ kmalloc = false)
  /\
  (forall tty cdev,
     tty_create MKDEVID TTY_MAJOR kmalloc driver id = Returned (tty, cdev) ->
     tty_driver tty = driver /\
     tty_ldisc tty = None /\
     tty_id tty = MKDEVID TTY_MAJOR id /\
     cd_id cdev = tty_id tty /\
     cd_ops cdev = tty_bytedev_ops /\
     (forall offset buff count,
        tty_write tty offset buff count = Panicked) /\
     (forall offset count, tty_read tty offset count = Panicked) /\
     (forall c, tty_global_driver_callback (Some tty) c = Panicked)).
Proof.
  unfold tty_create. split.
  - destruct driver as [d|]; [|split; auto].
    destruct kmalloc; split; auto; try discriminate.
    intros [Hd | Hk]; discriminate.
  - intros tty cdev Hrun.
    destruct driver as [d|]; [|discriminate Hrun].
    destruct kmalloc; [|discriminate Hrun].
    injection Hrun as <- <-. cbn.
    repeat split; auto.
    + intros offset buff count. unfold tty_write. cbn.
      destruct (block_io d). reflexivity.
    + intros offset count. unfold tty_read. cbn.
      destruct (block_io d). reflexivity.
Qed.

End Device.

(** Writing six bytes of the sample buffer: three bytes are taken (the
    fourth is null), four reach the screen. *)
Lemma tty_write_processes_witness :
  exists n : nat,
    Z.of_nat n <= Z.max 0 6 /\
    (forall k, 0 <= k < Z.of_nat n -> sample_buf k <> x00) /\
    (Z.of_nat n < 6 -> sample_buf (Z.of_nat n) = x00) /\
    length (bytes_from sample_buf 0 n) = n /\
    @tty_write _ _ screen_ops crlf_ops
      (mk_tty (Some ([], 0)) (Some 0) 513) 0 sample_buf 6
    = let '(blocked, token) := @block_io _ screen_ops ([], 0) in
      let '(ttyd', ldisc') :=
        @feed _ _ screen_ops crlf_ops (bytes_from sample_buf 0 n) blocked 0 in
      Returned (Z.of_nat n,
                mk_tty (Some (@unblock_io _ screen_ops ttyd' token))
                  (Some ldisc') 513).
Proof.
  exact (@tty_write_processes _ _ screen_ops crlf_ops
           (mk_tty (Some ([], 0)) (Some 0) 513) 0 sample_buf 6 ([], 0) 0
           eq_refl eq_refl).
Defined.

Lemma tty_echo_stops_at_null_witness :
  @tty_echo _ screen_ops ([], 0) [x68; x69; x00; x21] = ([x68; x69], 0).
Proof.
  exact (proj1 (proj2 (@tty_echo_stops_at_null _ screen_ops [x68; x69] [x21]
                         ([], 0)
                         ltac:(repeat constructor; discriminate)))).
Defined.

(** A write whose buffer starts at the null byte of the sample buffer. *)
Lemma tty_write_nothing_witness :
  @tty_write _ _ screen_ops crlf_ops
    (mk_tty (Some ([], 0)) (Some 0) 513) 0 (fun i => sample_buf (i + 3)) 5
  = Returned (0, mk_tty (Some ([], 0)) (Some 0) 513).
Proof.
  exact (@tty_write_nothing _ _ screen_ops crlf_ops
           (mk_tty (Some ([], 0)) (Some 0) 513) 0
           (fun i => sample_buf (i + 3)) 5 ([], 0) 0
           eq_refl eq_refl ltac:(right; reflexivity)).
Defined.

(** The first terminal, created with the device ids of the kernel
    ([MKDEVID(major, minor) = major << 8 | minor], [TTY_MAJOR = 2]). *)
Lemma tty_create_no_ldisc_witness :
  @tty_write _ Z screen_ops crlf_ops
    (mk_tty (Some ([], 0)) None 512) 0 sample_buf 6 = Panicked
  /\
  @tty_read _ Z screen_ops echo_input_ops
    (mk_tty (Some ([], 0)) None 512) 0 6 = Panicked.
Proof.
  destruct (proj2 (@tty_create_no_ldisc _ Z screen_ops crlf_ops
                     echo_input_ops
                     (fun major minor => Z.lor (Z.shiftl major 8) minor) 2
                     true (Some ([], 0)) 0)
              (mk_tty (Some ([], 0)) None 512)
              (mk_bytedev 512 tty_bytedev_ops) eq_refl)
    as (_ & _ & _ & _ & _ & Hwrite & Hread & _).
  split; [apply Hwrite|apply Hread].
Defined.

End TtySpec.

(** ** The scheduler *)

Module SchedSpec.
Import Machine Sched MachineFacts.
Local Open Scope sched_scope.

(** *** Running straight-line scheduler code *)

Ltac run_sched :=
  cbn [ktqueue_enqueue ktqueue_dequeue ktqueue_remove
       sched_queue_empty sched_queue_init
       list_empty list_insert_head list_tail list_remove_tail list_remove
       set_wchan set_state set_cancelled size_incr size_decr
       intr_getipl intr_setipl intr_disable
       bind bind_outcome gets modify ret panic KASSERT is_some negb].

Ltac run_basic :=
  cbn [set_wchan set_state set_cancelled
       intr_getipl intr_setipl intr_disable
       bind bind_outcome gets modify ret panic KASSERT is_some negb].

Ltac fn_simpl :=
  repeat
    (progress
       (cbn [threads queues curthr curproc ipl intr_on
             with_thread with_queue with_current with_ipl with_intr
             kt_state kt_cancelled kt_wchan kt_qlink kt_proc
             set_kt_state set_kt_cancelled set_kt_wchan set_kt_qlink
             tq_list tq_size] in *;
        repeat first
          [ rewrite fn_lookup_insert
          | rewrite fn_lookup_insert_ne by congruence ])).

Ltac effect_facts := repeat split; intros; fn_simpl; auto.

Lemma bind_done {A B : Type} (m : M A) (f : A -> M B) k a k1 :
  m k = Done a k1 -> bind m f k = f a k1.
Proof. intros Hm. unfold bind. rewrite Hm. reflexivity. Qed.

Lemma bind_panic {A B : Type} (m : M A) (f : A -> M B) k k1 :
  m k = Panic k1 -> bind m f k = Panic k1.
Proof. intros Hm. unfold bind. rewrite Hm. reflexivity. Qed.

(** *** The private queue functions *)

Lemma ktqueue_enqueue_linked q thr k :
  kt_wchan (threads k thr) <> None ->
  ktqueue_enqueue q thr k = Panic k.
Proof.
  intros Hw. run_sched.
  destruct (kt_wchan (threads k thr)); [reflexivity|contradiction].
Qed.

Lemma ktqueue_enqueue_effect q thr k :
  kt_wchan (threads k thr) = None ->
  exists k',
    ktqueue_enqueue q thr k = Done tt k' /\
    updated k k' thr
      (mk_kthread (kt_state (threads k thr)) (kt_cancelled (threads k thr))
         (Some q) (Some q) (kt_proc (threads k thr)))
      q
      (mk_ktqueue (thr :: tq_list (queues k q))
         (wrap_int (tq_size (queues k q) + 1))) /\
    curthr k' = curthr k /\ curproc k' = curproc k /\
    ipl k' = ipl k /\ intr_on k' = intr_on k.
Proof.
  intros Hw. run_sched. rewrite Hw. run_sched.
  eexists. split; [reflexivity|].
  split; [split|]; effect_facts.
Qed.

Lemma ktqueue_dequeue_empty q k :
  tq_list (queues k q) = [] ->
  ktqueue_dequeue q k = Done None k.
Proof. intros Hl. run_sched. rewrite Hl. reflexivity. Qed.

Lemma ktqueue_dequeue_effect q k l thr :
  tq_list (queues k q) = l ++ [thr] ->
  exists k',
    ktqueue_dequeue q k = Done (Some thr) k' /\
    updated k k' thr
      (mk_kthread (kt_state (threads k thr)) (kt_cancelled (threads k thr))
         None None (kt_proc (threads k thr)))
      q
      (mk_ktqueue l (wrap_int (tq_size (queues k q) - 1))) /\
    curthr k' = curthr k /\ curproc k' = curproc k /\
    ipl k' = ipl k /\ intr_on k' = intr_on k.
Proof.
  intros Hl. run_sched. rewrite Hl.
  rewrite bool_decide_eq_false_2 by (destruct l; discriminate).
  run_sched. rewrite Hl, last_snoc.
  run_sched. rewrite Hl, removelast_last.
  eexists. split; [reflexivity|].
  split; [split|]; effect_facts.
Qed.

Lemma ktqueue_remove_unlinked q thr k :
  kt_qlink (threads k thr) = None ->
  ktqueue_remove q thr k = Panic k.
Proof. intros Hl. run_sched. rewrite Hl. reflexivity. Qed.

Lemma ktqueue_remove_effect q thr k :
  kt_qlink (threads k thr) = Some q ->
  exists k',
    ktqueue_remove q thr k = Done tt k' /\
    updated k k' thr
      (mk_kthread (kt_state (threads k thr)) (kt_cancelled (threads k thr))
         None None (kt_proc (threads k thr)))
      q
      (mk_ktqueue
         (List.filter (fun t => negb (Nat.eqb t thr)) (tq_list (queues k q)))
         (wrap_int (tq_size (queues k q) - 1))) /\
    curthr k' = curthr k /\ curproc k' = curproc k /\
    ipl k' = ipl k /\ intr_on k' = intr_on k.
Proof.
  intros Hl. run_sched. rewrite Hl. run_sched.
  unfold bind at 1. unfold list_remove. rewrite Hl. run_sched.
  eexists. split; [reflexivity|].
  split; [split|]; effect_facts.
Qed.

(** *** The queue invariants under linking and unlinking *)

Lemma queues_ok_same k k' :
  queues_ok k ->
  (forall t, kt_wchan (threads k' t) = kt_wchan (threads k t)) ->
  (forall t, kt_qlink (threads k' t) = kt_qlink (threads k t)) ->
  (forall q, queues k' q = queues k q) ->
  queues_ok k'.
Proof.
  intros [Hw Hs Hn Hq Hi] Hw' Hq' Hqs.
  split; unfold linked_on in *; intros.
  - rewrite Hw', Hqs. apply Hw.
  - rewrite Hqs. apply Hs.
  - rewrite Hqs. apply Hn.
  - rewrite Hq', Hqs. apply Hq.
  - rewrite Hqs. apply Hi.
Qed.

Lemma queues_ok_link k k' thr th' q tq' :
  queues_ok k ->
  kt_wchan (threads k thr) = None ->
  updated k k' thr th' q tq' ->
  kt_wchan th' = Some q ->
  kt_qlink th' = Some q ->
  tq_list tq' = thr :: tq_list (queues k q) ->
  tq_size tq' = wrap_int (tq_size (queues k q) + 1) ->
  room k q 1 ->
  queues_ok k'.
Proof.
  intros [Hw Hs Hn Hq Hi] Hnone [Ht Hts Hqu Hqus] Hw' Hq' Hl' Hs' Hroom.
  unfold linked_on, room in *.
  assert (Hfree : forall q0, ~ In thr (tq_list (queues k q0))).
  { intros q0 Hin. apply Hw in Hin. congruence. }
  split; unfold linked_on.
  - intros t q0.
    destruct (Nat.eq_dec t thr) as [-> | Ht'];
      destruct (Nat.eq_dec q0 q) as [-> | Hq0].
    + rewrite Ht, Hqu, Hw', Hl'. split; [intros _; left; reflexivity|reflexivity].
    + rewrite Ht, Hw', (Hqus _ Hq0). split; [congruence|].
      intros Hin. destruct (Hfree _ Hin).
    + rewrite (Hts _ Ht'), Hqu, Hl'. rewrite Hw. cbn. intuition congruence.
    + rewrite (Hts _ Ht'), (Hqus _ Hq0). apply Hw.
  - intros q0. destruct (Nat.eq_dec q0 q) as [-> | Hq0].
    + rewrite Hqu, Hs', Hl', Hs. cbn [length].
      rewrite wrap_int_small; unfold INT_MAX in *; lia.
    + rewrite (Hqus _ Hq0). apply Hs.
  - intros q0. destruct (Nat.eq_dec q0 q) as [-> | Hq0].
    + rewrite Hqu, Hl'. constructor; [apply Hfree|apply Hn].
    + rewrite (Hqus _ Hq0). apply Hn.
  - intros t q0.
    destruct (Nat.eq_dec t thr) as [-> | Ht'];
      destruct (Nat.eq_dec q0 q) as [-> | Hq0].
    + rewrite Ht, Hqu, Hq', Hl'. split; [intros _; left; reflexivity|reflexivity].
    + rewrite Ht, Hq', (Hqus _ Hq0). split; [congruence|].
      intros Hin. destruct (Hfree _ Hin).
    + rewrite (Hts _ Ht'), Hqu, Hl'. rewrite Hq. cbn. intuition congruence.
    + rewrite (Hts _ Ht'), (Hqus _ Hq0). apply Hq.
  - intros q0. destruct (Nat.eq_dec q0 q) as [-> | Hq0].
    + rewrite Hqu, Hs', Hs.
      rewrite wrap_int_small; unfold INT_MAX in *; lia.
    + rewrite (Hqus _ Hq0). apply Hi.
Qed.

Lemma queues_ok_unlink k k' thr th' q tq' :
  queues_ok k ->
  linked_on k thr q ->
  updated k k' thr th' q tq' ->
  kt_wchan th' = None ->
  kt_qlink th' = None ->
  (forall t, In t (tq_list tq') <-> In t (tq_list (queues k q)) /\ t <> thr) ->
  List.NoDup (tq_list tq') ->
  Z.of_nat (length (tq_list tq')) + 1
  = Z.of_nat (length (tq_list (queues k q))) ->
  tq_size tq' = wrap_int (tq_size (queues k q) - 1) ->
  queues_ok k'.
Proof.
  intros [Hw Hs Hn Hq Hi] Hin [Ht Hts Hqu Hqus] Hw' Hq' Hl' Hn' Hlen Hs'.
  unfold linked_on in *.
  assert (Hsize : tq_size tq' = Z.of_nat (length (tq_list tq'))).
  { rewrite Hs', Hs. specialize (Hi q). rewrite Hs in Hi.
    rewrite wrap_int_small; unfold INT_MAX in *; lia. }
  assert (Hone : forall q0, q0 <> q -> ~ In thr (tq_list (queues k q0))).
  { intros q0 Hq0 Hin0. apply Hw in Hin0. apply Hw in Hin. congruence. }
  split; unfold linked_on.
  - intros t q0.
    destruct (Nat.eq_dec t thr) as [-> | Ht'];
      destruct (Nat.eq_dec q0 q) as [-> | Hq0].
    + rewrite Ht, Hqu, Hw', Hl'. split; [congruence|tauto].
    + rewrite Ht, Hw', (Hqus _ Hq0). split; [congruence|].
      intros Hin0. destruct (Hone _ Hq0 Hin0).
    + rewrite (Hts _ Ht'), Hqu, Hl', Hw. tauto.
    + rewrite (Hts _ Ht'), (Hqus _ Hq0). apply Hw.
  - intros q0. destruct (Nat.eq_dec q0 q) as [-> | Hq0].
    + rewrite Hqu. exact Hsize.
    + rewrite (Hqus _ Hq0). apply Hs.
  - intros q0. destruct (Nat.eq_dec q0 q) as [-> | Hq0].
    + rewrite Hqu. exact Hn'.
    + rewrite (Hqus _ Hq0). apply Hn.
  - intros t q0.
    destruct (Nat.eq_dec t thr) as [-> | Ht'];
      destruct (Nat.eq_dec q0 q) as [-> | Hq0].
    + rewrite Ht, Hqu, Hq', Hl'. split; [congruence|tauto].
    + rewrite Ht, Hq', (Hqus _ Hq0). split; [congruence|].
      intros Hin0. destruct (Hone _ Hq0 Hin0).
    + rewrite (Hts _ Ht'), Hqu, Hl', Hq. tauto.
    + rewrite (Hts _ Ht'), (Hqus _ Hq0). apply Hq.
  - intros q0. destruct (Nat.eq_dec q0 q) as [-> | Hq0].
    + rewrite Hqu, Hsize. specialize (Hi q). rewrite Hs in Hi. lia.
    + rewrite (Hqus _ Hq0). apply Hi.
Qed.

Lemma ensures_bind {A B : Type} (I : kernel -> Prop)
    (Q : A -> kernel -> Prop) (R : B -> kernel -> Prop)
    (o : outcome A) (f : A -> M B) :
  ensures I Q o ->
  (forall a k1, Q a k1 -> ensures I R (f a k1)) ->
  ensures I R (bind_outcome o f).
Proof.
  intros Ho Hf. induction o as [a k | k | y k resume IH | k]; cbn in *.
  - apply Hf. exact Ho.
  - exact Ho.
  - destruct Ho as [Hk Hres]. split; [exact Hk|].
    intros k' Hk'. apply IH. apply Hres. exact Hk'.
  - exact Ho.
Qed.

Lemma ensures_weaken {A : Type} (I : kernel -> Prop)
    (Q Q' : A -> kernel -> Prop) (o : outcome A) :
  ensures I Q o ->
  (forall a k1, Q a k1 -> Q' a k1) ->
  ensures I Q' o.
Proof.
  intros Ho Hq. induction o as [a k | k | y k resume IH | k]; cbn in *.
  - apply Hq. exact Ho.
  - exact Ho.
  - destruct Ho as [Hk Hres]. split; [exact Hk|].
    intros k' Hk'. apply IH. apply Hres. exact Hk'.
  - exact Ho.
Qed.

Lemma list_end {A : Type} (l : list A) :
  l = [] \/ exists l' x, l = l' ++ [x].
Proof.
  destruct l as [|a l] using rev_ind; [left; reflexivity|].
  right. exists l, a. reflexivity.
Qed.

(** [ktqueue_enqueue] keeps the invariants (a thread that is on a queue
    already trips the assertion before anything is changed). *)
Lemma ktqueue_enqueue_ok q thr k :
  queues_ok k -> room k q 1 ->
  always queues_ok (ktqueue_enqueue q thr k).
Proof.
  intros Hok Hroom. unfold always.
  destruct (kt_wchan (threads k thr)) as [q0|] eqn:Hw.
  - rewrite ktqueue_enqueue_linked by congruence. exact Hok.
  - destruct (ktqueue_enqueue_effect q thr k Hw) as (k' & -> & Hupd & _).
    cbn. eapply queues_ok_link; eauto.
Qed.

(** [ktqueue_dequeue] keeps the invariants. *)
Lemma ktqueue_dequeue_ok q k :
  queues_ok k -> always queues_ok (ktqueue_dequeue q k).
Proof.
  intros Hok. unfold always.
  destruct (list_end (tq_list (queues k q))) as [Hl | (l & thr & Hl)].
  - rewrite ktqueue_dequeue_empty by exact Hl. exact Hok.
  - destruct (ktqueue_dequeue_effect q k l thr Hl) as (k' & -> & Hupd & _).
    cbn. pose proof (link_once k Hok q) as Hnd. rewrite Hl in Hnd.
    apply List.NoDup_remove in Hnd. rewrite app_nil_r in Hnd.
    destruct Hnd as (Hndl & Hnotin).
    eapply queues_ok_unlink; eauto; cbn [tq_list tq_size].
    + unfold linked_on. rewrite Hl. apply in_or_app. right. left. reflexivity.
    + intros t. rewrite Hl, in_app_iff. cbn. split.
      * intros Hin. split; [left; exact Hin|].
        intros ->. contradiction.
      * intros [[Hin | [Heq | []]] Hne]; [exact Hin|congruence].
    + rewrite Hl, length_app. cbn. lia.
Qed.

Lemma length_filter_out (thr : tid) (l : list tid) :
  List.NoDup l -> In thr l ->
  (length (List.filter (fun t => negb (Nat.eqb t thr)) l) + 1 = length l)%nat.
Proof.
  induction l as [|a l IH]; intros Hnd Hin; [destruct Hin|].
  apply List.NoDup_cons_iff in Hnd. destruct Hnd as [Hna Hnd].
  cbn [List.filter]. destruct (Nat.eqb_spec a thr) as [-> | Hne]; cbn [negb].
  - cbn [length].
    assert (Hsame : List.filter (fun t => negb (Nat.eqb t thr)) l = l).
    { clear IH Hin Hnd. induction l as [|b l IHl]; [reflexivity|].
      cbn [List.filter].
      destruct (Nat.eqb_spec b thr) as [-> | _]; cbn [negb].
      + exfalso. apply Hna. left. reflexivity.
      + f_equal. apply IHl. intros Hin. apply Hna. right. exact Hin. }
    rewrite Hsame. lia.
  - cbn [length]. destruct Hin as [Heq | Hin]; [congruence|].
    rewrite <- (IH Hnd Hin). lia.
Qed.

(** [ktqueue_remove] keeps the invariants when the thread is on no
    queue other than the one passed. *)
Lemma ktqueue_remove_ok q thr k :
  queues_ok k ->
  (forall q', kt_wchan (threads k thr) = Some q' -> q' = q) ->
  always queues_ok (ktqueue_remove q thr k).
Proof.
  intros Hok Hon. unfold always.
  destruct (kt_qlink (threads k thr)) as [q'|] eqn:Hlink.
  - assert (q' = q) as ->.
    { apply Hon. apply (wchan_linked k Hok). apply (qlink_linked k Hok).
      exact Hlink. }
    destruct (ktqueue_remove_effect q thr k Hlink) as (k' & -> & Hupd & _).
    cbn. pose proof (link_once k Hok q) as Hnd.
    assert (Hin : In thr (tq_list (queues k q)))
      by (apply (qlink_linked k Hok); exact Hlink).
    eapply queues_ok_unlink; eauto; cbn [tq_list tq_size].
    + intros t. rewrite filter_In.
      destruct (Nat.eqb_spec t thr); cbn [negb]; intuition congruence.
    + apply List.NoDup_filter. exact Hnd.
    + pose proof (length_filter_out thr _ Hnd Hin). lia.
  - rewrite ktqueue_remove_unlinked by exact Hlink. exact Hok.
Qed.

(** *** The public functions *)

Section Public.
Context `{SchedConsts}.

Lemma sched_make_runnable_effect thr k :
  kt_wchan (threads k thr) = None ->
  exists k',
    sched_make_runnable thr k = Done tt k' /\
    updated k k' thr
      (mk_kthread KT_RUN (kt_cancelled (threads k thr))
         (Some kt_runq) (Some kt_runq) (kt_proc (threads k thr)))
      kt_runq
      (mk_ktqueue (thr :: tq_list (queues k kt_runq))
         (wrap_int (tq_size (queues k kt_runq) + 1))) /\
    curthr k' = curthr k /\ curproc k' = curproc k /\
    ipl k' = ipl k /\ intr_on k' = intr_on k.
Proof.
  intros Hw. unfold sched_make_runnable. run_sched. fn_simpl.
  rewrite Hw. run_sched.
  eexists. split; [reflexivity|].
  split; [split|]; effect_facts.
Qed.

Lemma sched_make_runnable_linked thr k :
  kt_wchan (threads k thr) <> None ->
  exists k',
    sched_make_runnable thr k = Panic k' /\
    (forall t, kt_wchan (threads k' t) = kt_wchan (threads k t)) /\
    (forall t, kt_qlink (threads k' t) = kt_qlink (threads k t)) /\
    (forall q, queues k' q = queues k q) /\
    kt_state (threads k' thr) = KT_RUN.
Proof.
  intros Hw. unfold sched_make_runnable. run_sched. fn_simpl.
  destruct (kt_wchan (threads k thr)) eqn:Hw'; [|contradiction].
  run_sched. eexists. split; [reflexivity|].
  repeat split; intros; fn_simpl; auto.
  - destruct (Nat.eq_dec t thr) as [-> | Hne]; fn_simpl; auto.
  - destruct (Nat.eq_dec t thr) as [-> | Hne]; fn_simpl; auto.
Qed.

Lemma sched_make_runnable_ok thr k :
  queues_ok k -> room k kt_runq 1 ->
  always queues_ok (sched_make_runnable thr k).
Proof.
  intros Hok Hroom. unfold always.
  destruct (kt_wchan (threads k thr)) as [q0|] eqn:Hw.
  - destruct (sched_make_runnable_linked thr k)
      as (k' & -> & Hw' & Hq' & Hqs & _); [congruence|].
    cbn. eapply queues_ok_same; eauto.
  - destruct (sched_make_runnable_effect thr k Hw) as (k' & -> & Hupd & _).
    cbn. eapply queues_ok_link; eauto.
Qed.

Lemma sched_wakeup_on_empty q k :
  tq_list (queues k q) = [] ->
  sched_wakeup_on q k = Done None k.
Proof.
  intros Hl. unfold sched_wakeup_on. run_sched. rewrite Hl. reflexivity.
Qed.

(** Waking the tail [thr] of [q]: the state [k1] after the dequeue and
    the state [k'] after [sched_make_runnable]. *)
Lemma sched_wakeup_on_steps q k l thr :
  tq_list (queues k q) = l ++ [thr] ->
  exists k1 k',
    sched_wakeup_on q k = Done (Some thr) k' /\
    updated k k1 thr
      (mk_kthread (kt_state (threads k thr)) (kt_cancelled (threads k thr))
         None None (kt_proc (threads k thr)))
      q
      (mk_ktqueue l (wrap_int (tq_size (queues k q) - 1))) /\
    updated k1 k' thr
      (mk_kthread KT_RUN (kt_cancelled (threads k thr))
         (Some kt_runq) (Some kt_runq) (kt_proc (threads k thr)))
      kt_runq
      (mk_ktqueue (thr :: tq_list (queues k1 kt_runq))
         (wrap_int (tq_size (queues k1 kt_runq) + 1))) /\
    ktqueue_dequeue q k = Done (Some thr) k1 /\
    sched_make_runnable thr k1 = Done tt k'.
Proof.
  intros Hl.
  destruct (ktqueue_dequeue_effect q k l thr Hl) as (k1 & Hdeq & Hupd1 & _).
  assert (Hth : threads k1 thr =
                mk_kthread (kt_state (threads k thr))
                  (kt_cancelled (threads k thr)) None None
                  (kt_proc (threads k thr)))
    by apply Hupd1.
  destruct (sched_make_runnable_effect thr k1) as (k' & Hmr & Hupd2 & _).
  { rewrite Hth. reflexivity. }
  rewrite Hth in Hupd2. cbn [kt_cancelled kt_proc] in Hupd2.
  exists k1, k'. repeat split; try assumption; try apply Hupd1; try apply Hupd2.
  unfold sched_wakeup_on. run_sched. rewrite Hl.
  rewrite bool_decide_eq_false_2 by (destruct l; discriminate).
  rewrite (bind_done _ _ _ _ _ Hdeq).
  rewrite (bind_done _ _ _ _ _ Hmr). reflexivity.
Qed.

(** What [sched_wakeup_on] does to a queue that is not empty. *)
Lemma sched_wakeup_on_effect q k l thr :
  tq_list (queues k q) = l ++ [thr] ->
  exists k',
    sched_wakeup_on q k = Done (Some thr) k' /\
    kt_state (threads k' thr) = KT_RUN /\
    kt_wchan (threads k' thr) = Some kt_runq /\
    (forall t, t <> thr -> threads k' t = threads k t) /\
    (q <> kt_runq ->
     tq_list (queues k' q) = l /\
     tq_list (queues k' kt_runq) = thr :: tq_list (queues k kt_runq)) /\
    (q = kt_runq -> tq_list (queues k' kt_runq) = thr :: l) /\
    (forall q0, q0 <> q -> q0 <> kt_runq -> queues k' q0 = queues k q0).
Proof.
  intros Hl.
  destruct (sched_wakeup_on_steps q k l thr Hl)
    as (k1 & k' & Hrun & [Ht1 Hts1 Hq1 Hqs1] & [Ht2 Hts2 Hq2 Hqs2] & _).
  exists k'. split; [exact Hrun|].
  split; [rewrite Ht2; reflexivity|].
  split; [rewrite Ht2; reflexivity|].
  split; [intros t Hne; rewrite Hts2, Hts1 by exact Hne; reflexivity|].
  split; [|split].
  - intros Hq. split.
    + rewrite Hqs2, Hq1 by exact Hq. reflexivity.
    + rewrite Hq2. cbn [tq_list]. rewrite Hqs1 by congruence. reflexivity.
  - intros ->. rewrite Hq2. cbn [tq_list]. rewrite Hq1. reflexivity.
  - intros q0 Hne Hner. rewrite Hqs2, Hqs1 by assumption. reflexivity.
Qed.

Lemma sched_wakeup_on_ok q k :
  queues_ok k -> room k kt_runq 1 ->
  always queues_ok (sched_wakeup_on q k).
Proof.
  intros Hok Hroom. unfold always.
  destruct (list_end (tq_list (queues k q))) as [Hl | (l & thr & Hl)].
  - rewrite sched_wakeup_on_empty by exact Hl. exact Hok.
  - destruct (sched_wakeup_on_steps q k l thr Hl)
      as (k1 & k' & -> & Hupd1 & Hupd2 & Hdeq & Hmr).
    pose proof (ktqueue_dequeue_ok q k Hok) as Hok1.
    unfold always in Hok1. rewrite Hdeq in Hok1. cbn in Hok1.
    assert (Hroom1 : room k1 kt_runq 1).
    { unfold room in *. destruct (Nat.eq_dec q kt_runq) as [-> | Hne].
      - rewrite (upd_queue _ _ _ _ _ _ Hupd1). cbn [tq_list].
        rewrite Hl, length_app in Hroom. cbn in Hroom. lia.
      - rewrite (upd_queues _ _ _ _ _ _ Hupd1) by congruence. exact Hroom. }
    pose proof (sched_make_runnable_ok thr k1 Hok1 Hroom1) as Hok2.
    unfold always in Hok2. rewrite Hmr in Hok2. exact Hok2.
Qed.

Lemma sched_broadcast_on_empty fuel q k :
  tq_list (queues k q) = [] ->
  sched_broadcast_on fuel q k = Done tt k /\
  sched_broadcast_on_woken fuel q k = Done [] k.
Proof.
  intros Hl.
  destruct fuel; cbn [sched_broadcast_on sched_broadcast_on_woken];
    run_sched; rewrite Hl; split; reflexivity.
Qed.

Lemma sched_broadcast_on_step fuel q k l thr :
  tq_list (queues k q) = l ++ [thr] ->
  sched_broadcast_on (S fuel) q k
  = bind (sched_wakeup_on q) (fun _ => sched_broadcast_on fuel q) k /\
  sched_broadcast_on_woken (S fuel) q k
  = bind (sched_wakeup_on q)
      (fun kthr_tmp =>
         bind (sched_broadcast_on_woken fuel q)
           (fun woken =>
              ret (match kthr_tmp with
                   | Some t => t :: woken
                   | None => woken
                   end))) k.
Proof.
  intros Hl. cbn [sched_broadcast_on sched_broadcast_on_woken].
  unfold bind at 1 3. run_sched. rewrite Hl.
  rewrite bool_decide_eq_false_2 by (destruct l; discriminate).
  split; reflexivity.
Qed.

(** [sched_broadcast_on] on a wait queue, with fuel for every thread on
    it: the threads are woken from the tail on, that is in the reverse
    order of the list, and end up on the run queue in the order of the
    list. *)
Lemma sched_broadcast_on_run q :
  q <> kt_runq ->
  forall l k fuel,
    tq_list (queues k q) = l ->
    (length l <= fuel)%nat ->
    exists k',
      sched_broadcast_on fuel q k = Done tt k' /\
      sched_broadcast_on_woken fuel q k = Done (rev l) k' /\
      tq_list (queues k' q) = [] /\
      tq_list (queues k' kt_runq) = l ++ tq_list (queues k kt_runq) /\
      (forall t, In t l -> kt_state (threads k' t) = KT_RUN) /\
      (forall t, ~ In t l -> threads k' t = threads k t).
Proof.
  intros Hq l. induction l as [|thr l IH] using rev_ind; intros k fuel Hl Hfuel.
  - destruct (sched_broadcast_on_empty fuel q k Hl) as [Hb Hw].
    exists k. rewrite Hb, Hw. repeat split; auto. intros t [].
  - rewrite length_app in Hfuel. cbn in Hfuel.
    destruct fuel as [|fuel]; [lia|].
    destruct (sched_broadcast_on_step fuel q k l thr Hl) as [-> ->].
    destruct (sched_wakeup_on_effect q k l thr Hl)
      as (k1 & Hwake & Hst & _ & Hts & Hqs & _ & _).
    destruct (Hqs Hq) as [Hl1 Hr1].
    destruct (IH k1 fuel Hl1 ltac:(lia))
      as (k' & Hb & Hw & Hl' & Hr' & Hrun & Hkeep).
    exists k'.
    rewrite !(bind_done _ _ _ _ _ Hwake).
    rewrite (bind_done _ _ _ _ _ Hw).
    split; [exact Hb|].
    split; [rewrite rev_unit; reflexivity|].
    split; [exact Hl'|].
    split; [rewrite Hr', Hr1, <- app_assoc; reflexivity|].
    split.
    + intros t Hin.
      destruct (in_dec Nat.eq_dec t l) as [Hinl | Hnin]; [apply Hrun; exact Hinl|].
      apply in_app_or in Hin. destruct Hin as [Hin | [<- | []]]; [contradiction|].
      rewrite Hkeep by exact Hnin. exact Hst.
    + intros t Hnin. rewrite Hkeep, Hts; [reflexivity| |].
      * intros ->. apply Hnin. apply in_or_app. right. left. reflexivity.
      * intros Hin. apply Hnin. apply in_or_app. left. exact Hin.
Qed.

Lemma sched_broadcast_on_ok fuel q k :
  queues_ok k ->
  room k kt_runq (Z.of_nat (length (tq_list (queues k q)))) ->
  always queues_ok (sched_broadcast_on fuel q k).
Proof.
  revert k. induction fuel as [|fuel IH]; intros k Hok Hroom.
  - unfold always. cbn [sched_broadcast_on]. run_sched.
    destruct (bool_decide (tq_list (queues k q) = [])); exact Hok.
  - destruct (list_end (tq_list (queues k q))) as [Hl | (l & thr & Hl)].
    + rewrite (proj1 (sched_broadcast_on_empty (S fuel) q k Hl)). exact Hok.
    + rewrite (proj1 (sched_broadcast_on_step fuel q k l thr Hl)).
      assert (Hroom1 : room k kt_runq 1).
      { unfold room in *. rewrite Hl, length_app in Hroom. cbn in Hroom. lia. }
      pose proof (sched_wakeup_on_ok q k Hok Hroom1) as Hok1.
      destruct (sched_wakeup_on_effect q k l thr Hl)
        as (k1 & Hwake & _ & _ & _ & Hne & Heq & _).
      unfold always in Hok1. rewrite Hwake in Hok1. cbn in Hok1.
      rewrite (bind_done _ _ _ _ _ Hwake).
      apply IH; [exact Hok1|].
      unfold room in *. rewrite Hl, length_app in Hroom. cbn in Hroom.
      destruct (Nat.eq_dec q kt_runq) as [-> | Hq].
      * rewrite (Heq eq_refl). rewrite Hl, length_app in Hroom.
        cbn in *. lia.
      * destruct (Hne Hq) as [Hl1 Hr1]. rewrite Hl1, Hr1. cbn. lia.
Qed.

(** Threads enqueued one after the other pile up at the head. *)
Lemma enqueue_all_list q thrs :
  forall k0 k,
    enqueue_all q thrs k0 = Done tt k ->
    tq_list (queues k q) = rev thrs ++ tq_list (queues k0 q).
Proof.
  induction thrs as [|thr rest IH]; intros k0 k Hrun.
  - cbn in Hrun. injection Hrun as <-. reflexivity.
  - cbn [enqueue_all] in Hrun.
    destruct (kt_wchan (threads k0 thr)) as [q0|] eqn:Hw.
    + rewrite (bind_panic _ _ _ _ (ktqueue_enqueue_linked q thr k0
                 ltac:(congruence))) in Hrun.
      discriminate Hrun.
    + destruct (ktqueue_enqueue_effect q thr k0 Hw) as (k1 & Henq & Hupd & _).
      rewrite (bind_done _ _ _ _ _ Henq) in Hrun.
      rewrite (IH k1 k Hrun). rewrite (upd_queue _ _ _ _ _ _ Hupd).
      cbn [tq_list rev]. rewrite <- app_assoc. reflexivity.
Qed.

(** C7. [sched_wakeup_on] on an empty queue returns null and leaves the
    kernel as it is; on a queue whose last thread is [thr] it takes
    exactly [thr] off the queue, sets its state to [KT_RUN], puts it at
    the head of the run queue and returns it, all other threads and
    queues staying as they are.  [sched_broadcast_on] on a wait queue
    empties it and makes every thread of it runnable; the threads are
    woken in the reverse order of the list, so that threads enqueued in
    the order [thrs] on an empty queue wake in the order [thrs]. *)
Theorem sched_wakeup_fifo (q : qid) (k : kernel) :
  (tq_list (queues k q) = [] -> sched_wakeup_on q k = Done None k)
  /\
  (forall l thr,
     tq_list (queues k q) = l ++ [thr] ->
     exists k',
       sched_wakeup_on q k = Done (Some thr) k' /\
       kt_state (threads k' thr) = KT_RUN /\
       kt_wchan (threads k' thr) = Some kt_runq /\
       (forall t, t <> thr -> threads k' t = threads k t) /\
       (q <> kt_runq ->
        tq_list (queues k' q) = l /\
        tq_list (queues k' kt_runq) = thr :: tq_list (queues k kt_runq)) /\
       (q = kt_runq -> tq_list (queues k' kt_runq) = thr :: l) /\
       (forall q0, q0 <> q -> q0 <> kt_runq -> queues k' q0 = queues k q0))
  /\
  (q <> kt_runq ->
   forall fuel,
     (length (tq_list (queues k q)) <= fuel)%nat ->
     exists k',
       sched_broadcast_on fuel q k = Done tt k' /\
       sched_broadcast_on_woken fuel q k
       = Done (rev (tq_list (queues k q))) k' /\
       tq_list (queues k' q) = [] /\
       tq_list (queues k' kt_runq)
       = tq_list (queues k q) ++ tq_list (queues k kt_runq) /\
       (forall t, In t (tq_list (queues k q)) ->
                  kt_state (threads k' t) = KT_RUN) /\
       (forall k0 thrs,
          tq_list (queues k0 q) = [] ->
          enqueue_all q thrs k0 = Done tt k ->
          sched_broadcast_on_woken fuel q k = Done thrs k')).
Proof.
  split; [apply sched_wakeup_on_empty|].
  split; [intros l thr Hl; apply sched_wakeup_on_effect; exact Hl|].
  intros Hq fuel Hfuel.
  destruct (sched_broadcast_on_run q Hq _ k fuel eq_refl Hfuel)
    as (k' & Hb & Hw & Hl' & Hr' & Hrun & _).
  exists k'. repeat split; try assumption.
  intros k0 thrs Hempty Henq.
  apply enqueue_all_list in Henq. rewrite Hempty, app_nil_r in Henq.
  rewrite Hw, Henq, rev_involutive. reflexivity.
Qed.

(** *** Sleeping and switching *)

Lemma sched_switch_wait_ready fuel k :
  tq_list (queues k kt_runq) <> [] ->
  sched_switch_wait fuel k = Done tt k.
Proof.
  intros Hne.
  destruct fuel; cbn [sched_switch_wait]; run_sched;
    rewrite bool_decide_eq_false_2 by exact Hne; reflexivity.
Qed.

(** [sched_switch] with a thread [new] at the tail of the run queue:
    it takes [new] off the run queue, makes it the current thread and
    switches contexts at [IPL_HIGH]; back in the old thread it restores
    the interrupt level and returns. *)
Lemma sched_switch_run fuel k rest new :
  tq_list (queues k kt_runq) = rest ++ [new] ->
  exists k2,
    sched_switch fuel k
    = Yield (CtxSwitch (curthr k) new) k2
        (fun k' => Done tt (with_ipl k' (ipl k))) /\
    updated k k2 new
      (mk_kthread (kt_state (threads k new)) (kt_cancelled (threads k new))
         None None (kt_proc (threads k new)))
      kt_runq
      (mk_ktqueue rest (wrap_int (tq_size (queues k kt_runq) - 1))) /\
    curthr k2 = Some new /\
    ipl k2 = IPL_HIGH.
Proof.
  intros Hl. unfold sched_switch. run_sched.
  rewrite (bind_done _ _ _ _ _
             (sched_switch_wait_ready fuel (with_ipl k IPL_HIGH)
                ltac:(cbn; rewrite Hl; destruct rest; discriminate))).
  destruct (ktqueue_dequeue_effect kt_runq (with_ipl k IPL_HIGH) rest new Hl)
    as (k1 & Hdeq & [Ht Hts Hq Hqs] & Hcur & _ & Hipl & _).
  rewrite (bind_done _ _ _ _ _ Hdeq). run_sched.
  eexists. split; [unfold context_switch, bind; cbn; rewrite Hcur; reflexivity|].
  split; [split|]; effect_facts.
Qed.

(** [sched_switch] with an empty run queue: it waits for an interrupt
    at [IPL_LOW], and switches as soon as the kernel state it finds on
    coming back has a thread on the run queue. *)
Lemma sched_switch_waits fuel k :
  tq_list (queues k kt_runq) = [] ->
  exists resume,
    sched_switch (S fuel) k
    = Yield IntrWait
        (with_intr (with_ipl (with_intr (with_ipl k IPL_HIGH) false) IPL_LOW)
           true)
        resume /\
    forall k' rest new,
      tq_list (queues k' kt_runq) = rest ++ [new] ->
      exists k2,
        resume k'
        = Yield (CtxSwitch (curthr k') new) k2
            (fun k'' => Done tt (with_ipl k'' (ipl k))) /\
        updated k' k2 new
          (mk_kthread (kt_state (threads k' new))
             (kt_cancelled (threads k' new)) None None
             (kt_proc (threads k' new)))
          kt_runq
          (mk_ktqueue rest (wrap_int (tq_size (queues k' kt_runq) - 1))) /\
        curthr k2 = Some new.
Proof.
  intros Hl. unfold sched_switch. run_basic.
  unfold bind at 1. cbn [sched_switch_wait]. unfold bind at 1.
  run_sched. cbn [queues with_ipl]. rewrite Hl.
  rewrite bool_decide_eq_true_2 by reflexivity.
  run_sched. unfold intr_wait. cbn [bind_outcome].
  eexists. split; [reflexivity|].
  intros k' rest new Hl'. run_basic.
  rewrite (sched_switch_wait_ready fuel (with_ipl k' IPL_HIGH))
    by (cbn; rewrite Hl'; destruct rest; discriminate).
  cbn [bind_outcome].
  destruct (ktqueue_dequeue_effect kt_runq (with_ipl k' IPL_HIGH) rest new Hl')
    as (k1 & Hdeq & [Ht Hts Hq Hqs] & Hcur & _).
  rewrite (bind_done _ _ _ _ _ Hdeq). run_sched.
  eexists. split; [unfold context_switch, bind; cbn; rewrite Hcur; reflexivity|].
  split; [split|]; effect_facts.
Qed.

Lemma ensures_trivial {A : Type} (o : outcome A) :
  ensures (fun _ => True) (fun _ _ => True) o.
Proof.
  induction o as [a k | k | y k resume IH | k]; cbn; auto.
Qed.

Lemma returns_bind {A B : Type} (Q : B -> Prop) (o : outcome A) (f : A -> M B) :
  (forall a k1, returns Q (f a k1)) ->
  returns Q (bind_outcome o f).
Proof.
  intros Hf. unfold returns.
  apply ensures_bind with (Q := fun _ _ => True).
  - apply ensures_trivial.
  - intros a k1 _. apply Hf.
Qed.

Lemma sched_cancellable_sleep_on_cancelled fuel q k thr :
  curthr k = Some thr ->
  kt_cancelled (threads k thr) = 1 ->
  sched_cancellable_sleep_on fuel q k
  = Done EINTR (with_thread k thr
                  (set_kt_state (threads k thr) KT_SLEEP_CANCELLABLE)).
Proof.
  intros Hcur Hc. unfold sched_cancellable_sleep_on. run_sched.
  rewrite Hcur. run_sched. fn_simpl. rewrite Hc. reflexivity.
Qed.

Lemma sched_cancellable_sleep_on_sleeps fuel q k thr :
  curthr k = Some thr ->
  kt_cancelled (threads k thr) <> 1 ->
  sched_cancellable_sleep_on fuel q k
  = bind (ktqueue_enqueue q thr)
      (fun _ => bind (sched_switch fuel) (fun _ => ret 0))
      (with_thread k thr (set_kt_state (threads k thr) KT_SLEEP_CANCELLABLE)).
Proof.
  intros Hcur Hc. unfold sched_cancellable_sleep_on. run_basic.
  rewrite Hcur. run_basic. fn_simpl.
  destruct (Z.eqb_spec 1 (kt_cancelled (threads k thr))) as [Heq | _];
    [congruence|reflexivity].
Qed.

(** C10. Entered with the cancelled flag set, [sched_cancellable_sleep_on]
    returns [EINTR] at once: no queue has changed, so the current thread
    has been enqueued nowhere (and is on no queue if it was on none),
    but its state, set before the flag is looked at, is
    [KT_SLEEP_CANCELLABLE] and not [KT_RUN]. *)
Theorem sched_cancellable_sleep_on_leaves_state (fuel : nat) (q : qid)
    (k : kernel) (thr : tid) :
  curthr k = Some thr ->
  kt_cancelled (threads k thr) = 1 ->
  exists k',
    sched_cancellable_sleep_on fuel q k = Done EINTR k' /\
    (forall q0, queues k' q0 = queues k q0) /\
    kt_wchan (threads k' thr) = kt_wchan (threads k thr) /\
    ((forall q0, ~ linked_on k thr q0) -> forall q0, ~ linked_on k' thr q0) /\
    curthr k' = Some thr /\
    kt_state (threads k' thr) = KT_SLEEP_CANCELLABLE /\
    kt_state (threads k' thr) <> KT_RUN.
Proof.
  intros Hcur Hc.
  rewrite (sched_cancellable_sleep_on_cancelled fuel q k thr Hcur Hc).
  eexists. split; [reflexivity|].
  unfold linked_on. fn_simpl. repeat split; auto; discriminate.
Qed.

(** C6. Entered with the cancelled flag set, [sched_cancellable_sleep_on]
    returns [EINTR] with every queue as it was: it has neither enqueued
    the thread nor switched.  Entered with the flag clear (by a thread
    that is on no queue), it returns nothing but [0]; and when a thread
    [new] waits at the tail of the run queue, it sets the state of the
    current thread to [KT_SLEEP_CANCELLABLE], puts it at the head of
    [q] and switches to [new], to return [0] once switched back; when
    the run queue is empty it has done the same to the thread by the
    time it waits for an interrupt, and switches as soon as an interrupt
    has left a thread on the run queue. *)
Theorem sched_cancellable_sleep_on_spec (fuel : nat) (q : qid)
    (k : kernel) (thr : tid) :
  curthr k = Some thr ->
  (kt_cancelled (threads k thr) = 1 ->
   exists k',
     sched_cancellable_sleep_on fuel q k = Done EINTR k' /\
     (forall q0, queues k' q0 = queues k q0) /\
     curthr k' = curthr k)
  /\
  (kt_cancelled (threads k thr) <> 1 ->
   kt_wchan (threads k thr) = None ->
   returns (fun r => r = 0) (sched_cancellable_sleep_on fuel q k)
   /\
   (forall rest new,
      q <> kt_runq ->
      thr <> new ->
      tq_list (queues k kt_runq) = rest ++ [new] ->
      exists k2 resume,
        sched_cancellable_sleep_on fuel q k
        = Yield (CtxSwitch (Some thr) new) k2 resume /\
        kt_state (threads k2 thr) = KT_SLEEP_CANCELLABLE /\
        kt_wchan (threads k2 thr) = Some q /\
        tq_list (queues k2 q) = thr :: tq_list (queues k q) /\
        curthr k2 = Some new /\
        (forall k', resume k' = Done 0 (with_ipl k' (ipl k))))
   /\
   (q <> kt_runq ->
    tq_list (queues k kt_runq) = [] ->
    exists k1 resume,
      sched_cancellable_sleep_on (S fuel) q k = Yield IntrWait k1 resume /\
      kt_state (threads k1 thr) = KT_SLEEP_CANCELLABLE /\
      kt_wchan (threads k1 thr) = Some q /\
      tq_list (queues k1 q) = thr :: tq_list (queues k q) /\
      (forall k' rest new,
         tq_list (queues k' kt_runq) = rest ++ [new] ->
         exists k2 resume',
           resume k' = Yield (CtxSwitch (curthr k') new) k2 resume' /\
           curthr k2 = Some new /\
           (forall k'', resume' k'' = Done 0 (with_ipl k'' (ipl k)))))).
Proof.
  intros Hcur. split.
  - intros Hc.
    rewrite (sched_cancellable_sleep_on_cancelled fuel q k thr Hcur Hc).
    eexists. split; [reflexivity|]. fn_simpl. auto.
  - intros Hc Hw.
    rewrite (sched_cancellable_sleep_on_sleeps (S fuel) q k thr Hcur Hc).
    rewrite (sched_cancellable_sleep_on_sleeps fuel q k thr Hcur Hc).
    set (k0 := with_thread k thr
                 (set_kt_state (threads k thr) KT_SLEEP_CANCELLABLE)).
    split; [|split].
    + unfold bind at 1. apply returns_bind. intros _ k1.
      unfold bind at 1. apply returns_bind. intros _ k2. cbn. reflexivity.
    + intros rest new Hq Hnew Hl.
      destruct (ktqueue_enqueue_effect q thr k0)
        as (k1 & Henq & [Ht1 Hts1 Hq1 Hqs1] & Hcur1 & _ & Hipl1 & _).
      { subst k0. fn_simpl. exact Hw. }
      rewrite (bind_done _ _ _ _ _ Henq).
      destruct (sched_switch_run fuel k1 rest new)
        as (k2 & Hsw & [Ht2 Hts2 Hq2 Hqs2] & Hcur2 & _).
      { rewrite Hqs1 by congruence. subst k0. fn_simpl. exact Hl. }
      assert (Hcur0 : curthr k1 = Some thr)
        by (rewrite Hcur1; subst k0; fn_simpl; exact Hcur).
      assert (Hipl0 : ipl k1 = ipl k)
        by (rewrite Hipl1; subst k0; fn_simpl; reflexivity).
      rewrite Hcur0, Hipl0 in Hsw.
      unfold bind at 1. rewrite Hsw. cbn [bind_outcome].
      eexists _, _. split; [reflexivity|].
      rewrite Hts2, Ht1, Hqs2, Hq1 by congruence.
      subst k0. fn_simpl.
      repeat split; auto.
    + intros Hq Hl.
      destruct (ktqueue_enqueue_effect q thr k0)
        as (k1 & Henq & [Ht1 Hts1 Hq1 Hqs1] & _ & _ & Hipl1 & _).
      { subst k0. fn_simpl. exact Hw. }
      rewrite (bind_done _ _ _ _ _ Henq).
      destruct (sched_switch_waits fuel k1) as (resume & Hsw & Hres).
      { rewrite Hqs1 by congruence. subst k0. fn_simpl. exact Hl. }
      assert (Hipl0 : ipl k1 = ipl k)
        by (rewrite Hipl1; subst k0; fn_simpl; reflexivity).
      unfold bind at 1. rewrite Hsw. cbn [bind_outcome].
      eexists _, _. split; [reflexivity|].
      fn_simpl. rewrite Ht1, Hq1. subst k0. fn_simpl.
      repeat split; auto.
      intros k' rest new Hl'.
      destruct (Hres k' rest new Hl') as (k2 & Hr & _ & Hcur2).
      rewrite Hr. cbn [bind_outcome].
      eexists _, _. split; [reflexivity|].
      split; [exact Hcur2|].
      intros k''. rewrite Hipl0. reflexivity.
Qed.

(** *** The invariants under the public functions *)

Lemma always_bind {A B : Type} (P : kernel -> Prop) (m : M A) (f : A -> M B) k :
  always P (m k) ->
  (forall a k1, P k1 -> always P (f a k1)) ->
  always P (bind m f k).
Proof.
  intros Hm Hf. unfold always, bind.
  eapply ensures_bind; [exact Hm|]. exact Hf.
Qed.

(** A step that leaves wait channels, links and queues alone keeps the
    invariants. *)
Ltac frame_ok :=
  eapply queues_ok_same; [eassumption | ..];
  intros; fn_simpl; try reflexivity;
  unfold insert, fn_insert; repeat (destruct (decide _)); subst; reflexivity.

Lemma sched_switch_wait_ok fuel :
  forall k, queues_ok k -> always queues_ok (sched_switch_wait fuel k).
Proof.
  induction fuel as [|fuel IH]; intros k Hok;
    cbn [sched_switch_wait]; unfold bind at 1; run_sched;
    destruct (bool_decide (tq_list (queues k kt_runq) = []));
    try exact Hok.
  unfold always. cbn. split; [frame_ok|].
  intros k' Hok'. apply IH. frame_ok.
Qed.

Lemma sched_switch_ok fuel k :
  queues_ok k -> always queues_ok (sched_switch fuel k).
Proof.
  intros Hok. unfold sched_switch. run_basic.
  apply always_bind; [apply sched_switch_wait_ok; frame_ok|].
  intros _ k1 Hok1.
  apply always_bind; [apply ktqueue_dequeue_ok; exact Hok1|].
  intros new k2 Hok2. run_basic.
  destruct new as [new|]; [|exact Hok2].
  unfold always. cbn. split; [frame_ok|].
  intros k' Hok'. frame_ok.
Qed.

Lemma frame_room k k' q n :
  (forall q0, queues k' q0 = queues k q0) -> room k q n -> room k' q n.
Proof. intros Hq Hr. unfold room in *. rewrite Hq. exact Hr. Qed.

Lemma sched_sleep_on_ok fuel q k :
  queues_ok k -> room k q 1 ->
  always queues_ok (sched_sleep_on fuel q k).
Proof.
  intros Hok Hroom. unfold sched_sleep_on. run_basic.
  destruct (curthr k) as [thr|]; [|exact Hok].
  run_basic.
  apply always_bind.
  - apply ktqueue_enqueue_ok; [frame_ok|].
    eapply frame_room; [|exact Hroom]. intros q0. reflexivity.
  - intros _ k1 Hok1. apply sched_switch_ok. exact Hok1.
Qed.

Lemma sched_cancellable_sleep_on_ok fuel q k :
  queues_ok k -> room k q 1 ->
  always queues_ok (sched_cancellable_sleep_on fuel q k).
Proof.
  intros Hok Hroom. unfold sched_cancellable_sleep_on. run_basic.
  destruct (curthr k) as [thr|]; [|exact Hok].
  run_basic.
  match goal with
  | |- context [if ?b then _ else _] => destruct b
  end.
  - unfold always. cbn. frame_ok.
  - apply always_bind.
    + apply ktqueue_enqueue_ok; [frame_ok|].
      eapply frame_room; [|exact Hroom]. intros q0. reflexivity.
    + intros _ k1 Hok1. apply always_bind; [apply sched_switch_ok; exact Hok1|].
      intros _ k2 Hok2. exact Hok2.
Qed.

(** [sched_cancel] on a thread that is not in a cancellable sleep takes
    the [default] branch: it sets the flag and returns. *)
Lemma sched_cancel_flag thr k :
  kt_state (threads k thr) <> KT_SLEEP_CANCELLABLE ->
  sched_cancel thr k
  = Done tt (with_thread k thr (set_kt_cancelled (threads k thr) 1)).
Proof.
  intros Hst. unfold sched_cancel. run_basic.
  destruct (kt_state (threads k thr)); try reflexivity. contradiction.
Qed.

Lemma sched_cancel_ok kthr k :
  kt_state (threads k kthr) <> KT_SLEEP_CANCELLABLE ->
  queues_ok k ->
  always queues_ok (sched_cancel kthr k).
Proof.
  intros Hst Hok. rewrite sched_cancel_flag by exact Hst.
  unfold always. cbn. frame_ok.
Qed.

(** C8 (amended). From a kernel state in which the queues are well
    formed (a thread has a wait channel exactly when it is linked on
    that queue, the counter of every queue is the number of threads
    linked on it, and the lists are proper lists of links), the
    scheduler operations leave such a state behind wherever they
    return, stop or yield: [ktqueue_enqueue], [ktqueue_dequeue],
    [ktqueue_remove] when the thread is on no other queue than the one
    it is given, [sched_sleep_on], [sched_cancellable_sleep_on],
    [sched_wakeup_on], [sched_broadcast_on], [sched_make_runnable], and
    [sched_cancel] on a thread that is not in a cancellable sleep; the
    operations that enqueue need the counter of the queue they enqueue
    on to stay below [INT_MAX].  Nothing is said of [sched_cancel] on a
    thread in a cancellable sleep, whose branch C5 is about. *)
Theorem scheduler_keeps_queues_ok (k : kernel) (q : qid) (thr : tid)
    (fuel : nat) :
  queues_ok k ->
  (room k q 1 -> always queues_ok (ktqueue_enqueue q thr k))
  /\
  always queues_ok (ktqueue_dequeue q k)
  /\
  ((forall q', kt_wchan (threads k thr) = Some q' -> q' = q) ->
   always queues_ok (ktqueue_remove q thr k))
  /\
  (room k q 1 -> always queues_ok (sched_sleep_on fuel q k))
  /\
  (room k q 1 -> always queues_ok (sched_cancellable_sleep_on fuel q k))
  /\
  (room k kt_runq 1 -> always queues_ok (sched_wakeup_on q k))
  /\
  (room k kt_runq (Z.of_nat (length (tq_list (queues k q)))) ->
   always queues_ok (sched_broadcast_on fuel q k))
  /\
  (kt_state (threads k thr) <> KT_SLEEP_CANCELLABLE ->
   always queues_ok (sched_cancel thr k))
  /\
  (room k kt_runq 1 -> always queues_ok (sched_make_runnable thr k)).
Proof.
  intros Hok. repeat split; intros.
  - apply ktqueue_enqueue_ok; assumption.
  - apply ktqueue_dequeue_ok; assumption.
  - apply ktqueue_remove_ok; assumption.
  - apply sched_sleep_on_ok; assumption.
  - apply sched_cancellable_sleep_on_ok; assumption.
  - apply sched_wakeup_on_ok; assumption.
  - apply sched_broadcast_on_ok; assumption.
  - apply sched_cancel_ok; assumption.
  - apply sched_make_runnable_ok; assumption.
Qed.

End Public.

(** *** The sample kernel *)

Lemma sample_kernel_ok : queues_ok sample_kernel.
Proof.
  split; unfold linked_on.
  - intros thr q.
    destruct thr as [|[|[|[|[|thr]]]]]; destruct q as [|[|q]]; cbn;
      intuition (discriminate || congruence || lia).
  - intros q. destruct q as [|[|q]]; reflexivity.
  - intros q. destruct q as [|[|q]]; cbn; repeat constructor; cbn;
      intuition (discriminate || lia).
  - intros thr q.
    destruct thr as [|[|[|[|[|thr]]]]]; destruct q as [|[|q]]; cbn;
      intuition (discriminate || congruence || lia).
  - intros q. destruct q as [|[|q]]; cbn; unfold INT_MAX; lia.
Qed.

Lemma sample_kernel_room q n :
  (n <= 1000)%Z -> room sample_kernel q n.
Proof.
  intros Hn. unfold room, INT_MAX.
  destruct q as [|[|q]]; cbn; lia.
Qed.

(** C8 as the claim states it, for every call of [ktqueue_remove],
    fails: the queues of the sample kernel are well formed and thread
    [3] is linked on queue [1]; [ktqueue_remove] of thread [3] from
    queue [2] returns, having unlinked the thread from queue [1], whose
    counter still says [2], and having taken the counter of the empty
    queue [2] to [-1]. *)
Lemma ktqueue_remove_breaks_size_counts :
  queues_ok sample_kernel /\
  exists k',
    ktqueue_remove 2%nat 3%nat sample_kernel = Done tt k' /\
    tq_list (queues k' 1%nat) = [2%nat] /\
    tq_size (queues k' 1%nat) = 2 /\
    tq_list (queues k' 2%nat) = [] /\
    tq_size (queues k' 2%nat) = -1 /\
    ~ (forall q,
         tq_size (queues k' q) = Z.of_nat (length (tq_list (queues k' q)))) /\
    ~ queues_ok k'.
Proof.
  split; [exact sample_kernel_ok|].
  eexists. split; [vm_compute; reflexivity|].
  repeat (split; [reflexivity|]).
  split.
  - intros Hsize. specialize (Hsize 2%nat). vm_compute in Hsize.
    discriminate Hsize.
  - intros Hok. pose proof (size_counts _ Hok 2%nat) as Hsize.
    vm_compute in Hsize. discriminate Hsize.
Qed.

(** C5. [sched_cancel] on thread [3] of the sample kernel, which sleeps
    cancellably at the head of queue [1] behind thread [2]: the dequeue
    takes thread [2], the tail, off the queue, and
    [sched_make_runnable] then stops the kernel on the wait channel
    thread [3] still has.  Thread [3] has its flag set but is still
    linked on queue [1] and not on the run queue, and thread [2] is left
    on no queue in the state [KT_SLEEP_CANCELLABLE]. *)
Theorem sched_cancel_dequeues_tail :
  exists k',
    @sched_cancel weenix_consts 3%nat sample_kernel = Panic k' /\
    kt_cancelled (threads k' 3%nat) = 1 /\
    tq_list (queues k' 1%nat) = [3%nat] /\
    kt_wchan (threads k' 3%nat) = Some 1%nat /\
    tq_list (queues k' kt_runq) = [4%nat] /\
    kt_wchan (threads k' 2%nat) = None /\
    kt_state (threads k' 2%nat) = KT_SLEEP_CANCELLABLE.
Proof.
  eexists. split; [vm_compute; reflexivity|].
  repeat split.
Qed.

(** Thread [1] of the sample kernel going to sleep on the empty queue
    [2], and the same with its flag set. *)
Lemma sched_cancellable_sleep_on_spec_witness :
  (exists k',
     @sched_cancellable_sleep_on weenix_consts 0 2%nat cancelled_kernel
     = Done 4 k' /\
     (forall q0, queues k' q0 = queues cancelled_kernel q0))
  /\
  (exists k2 resume,
     @sched_cancellable_sleep_on weenix_consts 0 2%nat sample_kernel
     = Yield (CtxSwitch (Some 1%nat) 4%nat) k2 resume /\
     kt_state (threads k2 1%nat) = KT_SLEEP_CANCELLABLE /\
     tq_list (queues k2 2%nat) = [1%nat] /\
     (forall k', resume k' = Done 0 (with_ipl k' 0))).
Proof.
  split.
  - destruct (proj1 (@sched_cancellable_sleep_on_spec weenix_consts 0%nat
                       2%nat cancelled_kernel 1%nat eq_refl) eq_refl)
      as (k' & Hrun & Hqs & _).
    exists k'. split; assumption.
  - destruct (proj2 (@sched_cancellable_sleep_on_spec weenix_consts 0%nat
                       2%nat sample_kernel 1%nat eq_refl)
                ltac:(cbn; discriminate) eq_refl)
      as (_ & Hsw & _).
    destruct (Hsw [] 4%nat ltac:(discriminate) ltac:(discriminate) eq_refl)
      as (k2 & resume & Hrun & Hst & _ & Hl & _ & Hres).
    exists k2, resume. repeat split; assumption.
Defined.

Lemma sched_cancellable_sleep_on_leaves_state_witness :
  exists k',
    @sched_cancellable_sleep_on weenix_consts 0 2%nat cancelled_kernel
    = Done 4 k' /\
    (forall q0, queues k' q0 = queues cancelled_kernel q0) /\
    kt_state (threads k' 1%nat) = KT_SLEEP_CANCELLABLE.
Proof.
  destruct (@sched_cancellable_sleep_on_leaves_state weenix_consts 0%nat
              2%nat cancelled_kernel 1%nat eq_refl eq_refl)
    as (k' & Hrun & Hqs & _ & _ & _ & Hst & _).
  exists k'. repeat split; assumption.
Defined.

(** Waking queue [1] of the sample kernel: thread [2], which went to
    sleep first, comes first. *)
Lemma sched_wakeup_fifo_witness :
  (exists k',
     @sched_wakeup_on weenix_consts 1%nat sample_kernel = Done (Some 2%nat) k' /\
     kt_state (threads k' 2%nat) = KT_RUN /\
     tq_list (queues k' 1%nat) = [3%nat] /\
     tq_list (queues k' kt_runq) = [2%nat; 4%nat])
  /\
  (exists k',
     @sched_broadcast_on weenix_consts 2 1%nat sample_kernel = Done tt k' /\
     @sched_broadcast_on_woken weenix_consts 2 1%nat sample_kernel
     = Done [2%nat; 3%nat] k' /\
     tq_list (queues k' kt_runq) = [3%nat; 2%nat; 4%nat]).
Proof.
  split.
  - destruct (proj1 (proj2 (@sched_wakeup_fifo weenix_consts 1%nat
                              sample_kernel)) [3%nat] 2%nat eq_refl)
      as (k' & Hrun & Hst & _ & _ & Hqs & _).
    destruct (Hqs ltac:(discriminate)) as [Hl Hr].
    exists k'. repeat split; assumption.
  - destruct (proj2 (proj2 (@sched_wakeup_fifo weenix_consts 1%nat
                              sample_kernel)) ltac:(discriminate) 2%nat
                ltac:(cbn; lia))
      as (k' & Hb & Hw & _ & Hr & _).
    exists k'. repeat split; assumption.
Defined.

Lemma scheduler_keeps_queues_ok_witness :
  always queues_ok (ktqueue_enqueue 2%nat 1%nat sample_kernel)
  /\
  always queues_ok (ktqueue_dequeue 1%nat sample_kernel)
  /\
  always queues_ok (ktqueue_remove 1%nat 3%nat sample_kernel)
  /\
  always queues_ok (@sched_sleep_on weenix_consts 1 2%nat sample_kernel)
  /\
  always queues_ok (@sched_cancellable_sleep_on weenix_consts 1 2%nat
                      sample_kernel)
  /\
  always queues_ok (@sched_wakeup_on weenix_consts 1%nat sample_kernel)
  /\
  always queues_ok (@sched_broadcast_on weenix_consts 2 1%nat sample_kernel)
  /\
  always queues_ok (@sched_cancel weenix_consts 1%nat sample_kernel)
  /\
  always queues_ok (@sched_make_runnable weenix_consts 1%nat sample_kernel).
Proof.
  pose proof (@scheduler_keeps_queues_ok weenix_consts sample_kernel 2%nat
                1%nat 1%nat sample_kernel_ok) as Hcur.
  pose proof (@scheduler_keeps_queues_ok weenix_consts sample_kernel 1%nat
                3%nat 2%nat sample_kernel_ok) as Hq.
  destruct Hcur as (Henq & _ & _ & Hsl & Hcsl & _ & _ & Hcan & Hmr).
  destruct Hq as (_ & Hdeq & Hrem & _ & _ & Hwake & Hbc & _ & _).
  split; [apply Henq; apply sample_kernel_room; lia|].
  split; [exact Hdeq|].
  split; [apply Hrem; intros q' Hq'; injection Hq' as <-; reflexivity|].
  split; [apply Hsl; apply sample_kernel_room; lia|].
  split; [apply Hcsl; apply sample_kernel_room; lia|].
  split; [apply Hwake; apply sample_kernel_room; lia|].
  split; [apply Hbc; apply sample_kernel_room; cbn; lia|].
  split; [apply Hcan; discriminate|].
  apply Hmr. apply sample_kernel_room. lia.
Defined.

(** *** Further properties of the queues and of the scheduler *)

(** X12. A thread put on a queue comes off it again in its turn: from
    an empty queue the next [ktqueue_dequeue] returns it and leaves the
    queue, counter included, and the wait channel of the thread as they
    were before the [ktqueue_enqueue]; from a queue that holds threads
    the next dequeue returns the thread that was last before, the new
    thread staying at the head. *)
Theorem ktqueue_enqueue_dequeue (q : qid) (thr : tid) (k : kernel) :
  kt_wchan (threads k thr) = None ->
  - 2 ^ 31 <= tq_size (queues k q) < INT_MAX ->
  exists k1,
    ktqueue_enqueue q thr k = Done tt k1 /\
    (tq_list (queues k q) = [] ->
     exists k2,
       ktqueue_dequeue q k1 = Done (Some thr) k2 /\
       (forall q0, queues k2 q0 = queues k q0) /\
       kt_wchan (threads k2 thr) = None /\
       kt_state (threads k2 thr) = kt_state (threads k thr) /\
       (forall t, t <> thr -> threads k2 t = threads k t)) /\
    (forall l t0,
       tq_list (queues k q) = l ++ [t0] ->
       exists k2,
         ktqueue_dequeue q k1 = Done (Some t0) k2 /\
         tq_list (queues k2 q) = thr :: l /\
         tq_size (queues k2 q) = tq_size (queues k q)).
Proof.
  intros Hw Hsize.
  destruct (ktqueue_enqueue_effect q thr k Hw)
    as (k1 & Henq & [Ht1 Hts1 Hq1 Hqs1] & _).
  exists k1. split; [exact Henq|].
  assert (Hback : wrap_int (wrap_int (tq_size (queues k q) + 1) - 1)
                  = tq_size (queues k q)).
  { unfold INT_MAX in Hsize.
    rewrite (wrap_int_small (tq_size (queues k q) + 1))
      by (unfold INT_MAX; lia).
    replace (tq_size (queues k q) + 1 - 1) with (tq_size (queues k q)) by lia.
    apply wrap_int_small. unfold INT_MAX. lia. }
  split.
  - intros Hl.
    destruct (ktqueue_dequeue_effect q k1 [] thr)
      as (k2 & Hdeq & [Ht2 Hts2 Hq2 Hqs2] & _).
    { rewrite Hq1, Hl. reflexivity. }
    exists k2. split; [exact Hdeq|].
    split; [|split; [|split]].
    + intros q0. destruct (Nat.eq_dec q0 q) as [-> | Hne].
      * rewrite Hq2, Hq1. cbn [tq_size]. rewrite Hback, <- Hl.
        destruct (queues k q); reflexivity.
      * rewrite Hqs2, Hqs1 by exact Hne. reflexivity.
    + rewrite Ht2. reflexivity.
    + rewrite Ht2, Ht1. reflexivity.
    + intros t Hne. rewrite Hts2, Hts1 by exact Hne. reflexivity.
  - intros l t0 Hl.
    destruct (ktqueue_dequeue_effect q k1 (thr :: l) t0)
      as (k2 & Hdeq & [_ _ Hq2 _] & _).
    { rewrite Hq1, Hl. reflexivity. }
    exists k2. split; [exact Hdeq|].
    rewrite Hq2, Hq1. cbn [tq_list tq_size]. rewrite Hback. auto.
Qed.

Lemma filter_out_middle (thr : tid) (l1 l2 : list tid) :
  ~ In thr l1 -> ~ In thr l2 ->
  List.filter (fun t => negb (Nat.eqb t thr)) (l1 ++ thr :: l2) = l1 ++ l2.
Proof.
  intros H1 H2.
  assert (Hkeep : forall l, ~ In thr l ->
            List.filter (fun t => negb (Nat.eqb t thr)) l = l).
  { induction l as [|a l IH]; intros Hl; [reflexivity|].
    cbn [List.filter]. destruct (Nat.eqb_spec a thr) as [-> | _]; cbn [negb].
    - exfalso. apply Hl. left. reflexivity.
    - f_equal. apply IH. intros Hin. apply Hl. right. exact Hin. }
  rewrite List.filter_app. cbn [List.filter].
  rewrite Nat.eqb_refl. cbn [negb].
  rewrite (Hkeep l1 H1), (Hkeep l2 H2). reflexivity.
Qed.

(** X13. [ktqueue_remove] takes a thread out of the middle of the queue
    it is linked on and leaves the others in their order: the threads
    before it and the threads behind it keep their places relative to
    each other, the counter goes down by one, the thread has no wait
    channel, and no other thread or queue changes. *)
Theorem ktqueue_remove_keeps_order (q : qid) (thr : tid) (k : kernel)
    (l1 l2 : list tid) :
  kt_qlink (threads k thr) = Some q ->
  tq_list (queues k q) = l1 ++ thr :: l2 ->
  ~ In thr l1 -> ~ In thr l2 ->
  exists k',
    ktqueue_remove q thr k = Done tt k' /\
    tq_list (queues k' q) = l1 ++ l2 /\
    tq_size (queues k' q) = wrap_int (tq_size (queues k q) - 1) /\
    kt_wchan (threads k' thr) = None /\
    kt_state (threads k' thr) = kt_state (threads k thr) /\
    (forall t, t <> thr -> threads k' t = threads k t) /\
    (forall q0, q0 <> q -> queues k' q0 = queues k q0).
Proof.
  intros Hlink Hl H1 H2.
  destruct (ktqueue_remove_effect q thr k Hlink)
    as (k' & Hrun & [Ht Hts Hq Hqs] & _).
  exists k'. split; [exact Hrun|].
  rewrite Hq, Ht. cbn [tq_list tq_size kt_wchan kt_state].
  rewrite Hl, filter_out_middle by assumption.
  repeat split; auto.
Qed.

Section More.
Context `{SchedConsts}.

(** X14. With a thread on the run queue, [sched_switch] switches to the
    thread at the tail of the run queue, the one that has been on it
    longest: it takes it off the run queue, clears its wait channel,
    makes it [curthr] and its process [curproc], and calls
    [context_switch] at [IPL_HIGH]; when the caller is switched back it
    restores the interrupt level the caller had and returns.  No other
    thread or queue changes. *)
Theorem sched_switch_picks_tail (fuel : nat) (k : kernel)
    (rest : list tid) (new : tid) :
  tq_list (queues k kt_runq) = rest ++ [new] ->
  exists k2,
    sched_switch fuel k
    = Yield (CtxSwitch (curthr k) new) k2
        (fun k' => Done tt (with_ipl k' (ipl k))) /\
    curthr k2 = Some new /\
    curproc k2 = Some (kt_proc (threads k new)) /\
    ipl k2 = IPL_HIGH /\
    tq_list (queues k2 kt_runq) = rest /\
    kt_wchan (threads k2 new) = None /\
    kt_state (threads k2 new) = kt_state (threads k new) /\
    (forall t, t <> new -> threads k2 t = threads k t) /\
    (forall q, q <> kt_runq -> queues k2 q = queues k q).
Proof.
  intros Hl. unfold sched_switch. run_basic.
  rewrite (bind_done _ _ _ _ _
             (sched_switch_wait_ready fuel (with_ipl k IPL_HIGH)
                ltac:(cbn; rewrite Hl; destruct rest; discriminate))).
  destruct (ktqueue_dequeue_effect kt_runq (with_ipl k IPL_HIGH) rest new Hl)
    as (k1 & Hdeq & [Ht Hts Hq Hqs] & Hcur & _ & Hipl & _).
  rewrite (bind_done _ _ _ _ _ Hdeq). run_sched.
  eexists. split; [unfold context_switch, bind; cbn; rewrite Hcur; reflexivity|].
  fn_simpl. rewrite Ht, Hq. cbn.
  repeat split; auto.
Qed.

Lemma make_runnable_all_list thrs :
  forall k0 k,
    make_runnable_all thrs k0 = Done tt k ->
    tq_list (queues k kt_runq) = rev thrs ++ tq_list (queues k0 kt_runq) /\
    curthr k = curthr k0.
Proof.
  induction thrs as [|thr rest IH]; intros k0 k Hrun.
  - cbn in Hrun. injection Hrun as <-. auto.
  - cbn [make_runnable_all] in Hrun.
    destruct (kt_wchan (threads k0 thr)) as [q0|] eqn:Hw.
    + destruct (sched_make_runnable_linked thr k0 ltac:(congruence))
        as (k1 & Hpanic & _).
      rewrite (bind_panic _ _ _ _ Hpanic) in Hrun. discriminate Hrun.
    + destruct (sched_make_runnable_effect thr k0 Hw)
        as (k1 & Hmr & Hupd & Hcur & _).
      rewrite (bind_done _ _ _ _ _ Hmr) in Hrun.
      destruct (IH k1 k Hrun) as [Hl Hc].
      rewrite Hl, Hc, (upd_queue _ _ _ _ _ _ Hupd).
      cbn [tq_list rev]. rewrite <- app_assoc. auto.
Qed.

(** X15. The run queue is first in, first out: when [sched_init] has
    set up the run queue and the threads [thrs] have then been made
    runnable in that order, the run queue holds them with the first at
    its tail, and [sched_switch] switches to the first of them, leaving
    the others queued in their order. *)
Theorem sched_run_queue_fifo (fuel : nat) (k0 k : kernel)
    (thrs : list tid) :
  (sched_init ;; make_runnable_all thrs) k0 = Done tt k ->
  tq_list (queues k kt_runq) = rev thrs /\
  (forall t rest,
     thrs = t :: rest ->
     exists k2 resume,
       sched_switch fuel k = Yield (CtxSwitch (curthr k0) t) k2 resume /\
       curthr k2 = Some t /\
       tq_list (queues k2 kt_runq) = rev rest).
Proof.
  intros Hrun. unfold sched_init in Hrun.
  unfold bind at 1 in Hrun. cbn [sched_queue_init modify bind_outcome] in Hrun.
  apply make_runnable_all_list in Hrun. destruct Hrun as [Hl Hcur].
  fn_simpl. rewrite app_nil_r in Hl.
  split; [exact Hl|].
  intros t rest ->. cbn [rev] in Hl.
  destruct (sched_switch_run fuel k (rev rest) t Hl)
    as (k2 & Hsw & [_ _ Hq2 _] & Hcur2 & _).
  rewrite Hcur in Hsw. exists k2. eexists. split; [exact Hsw|].
  split; [exact Hcur2|]. rewrite Hq2. reflexivity.
Qed.


(** X17. [sched_sleep_on] by a thread that is on no queue, with a
    thread [new] at the tail of the run queue: whatever the cancelled
    flag of the caller says, the caller gets the state [KT_SLEEP], is
    put at the head of [q] with [q] as its wait channel, and the CPU
    switches to [new]; when the caller is switched back the call
    returns with the interrupt level it was entered with. *)
Theorem sched_sleep_on_sleeps (fuel : nat) (q : qid) (k : kernel)
    (thr new : tid) (rest : list tid) :
  curthr k = Some thr ->
  kt_wchan (threads k thr) = None ->
  q <> kt_runq ->
  thr <> new ->
  tq_list (queues k kt_runq) = rest ++ [new] ->
  exists k2,
    sched_sleep_on fuel q k
    = Yield (CtxSwitch (Some thr) new) k2
        (fun k' => Done tt (with_ipl k' (ipl k))) /\
    kt_state (threads k2 thr) = KT_SLEEP /\
    kt_wchan (threads k2 thr) = Some q /\
    kt_cancelled (threads k2 thr) = kt_cancelled (threads k thr) /\
    tq_list (queues k2 q) = thr :: tq_list (queues k q) /\
    tq_list (queues k2 kt_runq) = rest /\
    curthr k2 = Some new.
Proof.
  intros Hcur Hw Hq Hnew Hl. unfold sched_sleep_on. run_basic.
  rewrite Hcur. run_basic.
  set (k0 := with_thread k thr (set_kt_state (threads k thr) KT_SLEEP)).
  destruct (ktqueue_enqueue_effect q thr k0)
    as (k1 & Henq & [Ht1 Hts1 Hq1 Hqs1] & Hcur1 & _ & Hipl1 & _).
  { subst k0. fn_simpl. exact Hw. }
  rewrite (bind_done _ _ _ _ _ Henq).
  destruct (sched_switch_run fuel k1 rest new)
    as (k2 & Hsw & [_ Hts2 Hl2 Hqs2] & Hcur2 & _).
  { rewrite Hqs1 by congruence. subst k0. fn_simpl. exact Hl. }
  assert (Hcur0 : curthr k1 = Some thr)
    by (rewrite Hcur1; subst k0; fn_simpl; exact Hcur).
  assert (Hipl0 : ipl k1 = ipl k)
    by (rewrite Hipl1; subst k0; fn_simpl; reflexivity).
  rewrite Hcur0, Hipl0 in Hsw.
  exists k2. split; [exact Hsw|].
  rewrite Hts2, Ht1, Hqs2, Hq1, Hl2 by congruence.
  subst k0. fn_simpl. repeat split; auto.
Qed.

(** X18. Going to sleep without a current thread, or as a thread that
    is on a queue already, stops the kernel before any queue has been
    touched: [sched_sleep_on], and [sched_cancellable_sleep_on] when
    the cancelled flag is not set, end in a panic with all queues and
    the wait channel of the thread as they were. *)
Theorem sched_sleep_on_asserts (fuel : nat) (q : qid) (k : kernel) :
  (curthr k = None ->
   sched_sleep_on fuel q k = Panic k /\
   sched_cancellable_sleep_on fuel q k = Panic k)
  /\
  (forall thr q0,
     curthr k = Some thr ->
     kt_wchan (threads k thr) = Some q0 ->
     (exists k',
        sched_sleep_on fuel q k = Panic k' /\
        (forall q1, queues k' q1 = queues k q1) /\
        kt_wchan (threads k' thr) = Some q0) /\
     (kt_cancelled (threads k thr) <> 1 ->
      exists k',
        sched_cancellable_sleep_on fuel q k = Panic k' /\
        (forall q1, queues k' q1 = queues k q1) /\
        kt_wchan (threads k' thr) = Some q0)).
Proof.
  split.
  - intros Hcur. unfold sched_sleep_on, sched_cancellable_sleep_on.
    run_basic. rewrite Hcur. split; reflexivity.
  - intros thr q0 Hcur Hw. split.
    + unfold sched_sleep_on. run_basic. rewrite Hcur. run_basic.
      rewrite (bind_panic _ _ _ _
                 (ktqueue_enqueue_linked q thr
                    (with_thread k thr (set_kt_state (threads k thr) KT_SLEEP))
                    ltac:(fn_simpl; rewrite Hw; discriminate))).
      eexists. split; [reflexivity|]. fn_simpl. auto.
    + intros Hc.
      rewrite (sched_cancellable_sleep_on_sleeps fuel q k thr Hcur Hc).
      rewrite (bind_panic _ _ _ _
                 (ktqueue_enqueue_linked q thr
                    (with_thread k thr
                       (set_kt_state (threads k thr) KT_SLEEP_CANCELLABLE))
                    ltac:(fn_simpl; rewrite Hw; discriminate))).
      eexists. split; [reflexivity|]. fn_simpl. auto.
Qed.

(** X19. [sched_cancel] on a thread that is not in a cancellable sleep
    only sets its cancelled flag: state, wait channel and process of
    the thread, every other thread, every queue, the current thread
    and the interrupt level stay as they are.  Cancelling the thread a
    second time changes nothing more. *)
Theorem sched_cancel_sets_flag_only (thr : tid) (k : kernel) :
  kt_state (threads k thr) <> KT_SLEEP_CANCELLABLE ->
  exists k1,
    sched_cancel thr k = Done tt k1 /\
    threads k1 thr = set_kt_cancelled (threads k thr) 1 /\
    (forall t, t <> thr -> threads k1 t = threads k t) /\
    (forall q, queues k1 q = queues k q) /\
    curthr k1 = curthr k /\ curproc k1 = curproc k /\ ipl k1 = ipl k /\
    exists k2,
      sched_cancel thr k1 = Done tt k2 /\
      (forall t, threads k2 t = threads k1 t) /\
      (forall q, queues k2 q = queues k1 q).
Proof.
  intros Hst. rewrite (sched_cancel_flag thr k Hst).
  eexists. split; [reflexivity|]. fn_simpl.
  repeat split; auto.
  - intros t Hne. fn_simpl. reflexivity.
  - rewrite sched_cancel_flag by (fn_simpl; exact Hst).
    eexists. split; [reflexivity|]. split; [|reflexivity].
    intros t. destruct (Nat.eq_dec t thr) as [-> | Hne]; fn_simpl; reflexivity.
Qed.

(** X20. A thread that is cancelled while it runs cannot go into a
    cancellable sleep afterwards: after [sched_cancel] on the current
    thread (which is not in a cancellable sleep),
    [sched_cancellable_sleep_on] returns [EINTR] and leaves every queue
    as it was before the cancel. *)
Theorem sched_cancel_then_sleep (fuel : nat) (q : qid) (thr : tid)
    (k : kernel) :
  curthr k = Some thr ->
  kt_state (threads k thr) <> KT_SLEEP_CANCELLABLE ->
  exists k1 k2,
    sched_cancel thr k = Done tt k1 /\
    sched_cancellable_sleep_on fuel q k1 = Done EINTR k2 /\
    (forall q0, queues k2 q0 = queues k q0) /\
    kt_wchan (threads k2 thr) = kt_wchan (threads k thr).
Proof.
  intros Hcur Hst. rewrite (sched_cancel_flag thr k Hst).
  eexists _, _. split; [reflexivity|].
  rewrite (sched_cancellable_sleep_on_cancelled fuel q _ thr)
    by (fn_simpl; auto).
  split; [reflexivity|]. fn_simpl. auto.
Qed.

(** X22. [sched_queue_init] leaves the queue empty with its counter at
    [0]: [sched_queue_empty] holds of it and [sched_wakeup_on] finds
    nothing to wake.  It touches no thread, so that it keeps the queue
    invariants exactly when the queue held no thread before: a thread
    that was linked on the queue is left with a wait channel that no
    longer holds it. *)
Theorem sched_queue_init_empties (q : qid) (k : kernel) :
  exists k',
    sched_queue_init q k = Done tt k' /\
    queues k' q = mk_ktqueue [] 0 /\
    sched_queue_empty q k' = Done true k' /\
    sched_wakeup_on q k' = Done None k' /\
    (forall t, threads k' t = threads k t) /\
    (forall q0, q0 <> q -> queues k' q0 = queues k q0) /\
    (queues_ok k -> (queues_ok k' <-> tq_list (queues k q) = [])).
Proof.
  eexists. split; [reflexivity|].
  set (k' := with_queue k q (mk_ktqueue [] 0)).
  assert (Hq : queues k' q = mk_ktqueue [] 0) by (subst k'; fn_simpl; reflexivity).
  assert (Hqs : forall q0, q0 <> q -> queues k' q0 = queues k q0)
    by (intros q0 Hne; subst k'; fn_simpl; reflexivity).
  split; [exact Hq|].
  split; [unfold sched_queue_empty, list_empty, gets; rewrite Hq; reflexivity|].
  split; [apply sched_wakeup_on_empty; rewrite Hq; reflexivity|].
  split; [reflexivity|]. split; [exact Hqs|].
  intros Hok. split.
  - intros Hok'.
    destruct (tq_list (queues k q)) as [|t l] eqn:Hl; [reflexivity|].
    exfalso.
    assert (Hw : kt_wchan (threads k t) = Some q).
    { apply (wchan_linked k Hok). unfold linked_on. rewrite Hl. left.
      reflexivity. }
    apply (wchan_linked k' Hok') in Hw. unfold linked_on in Hw.
    rewrite Hq in Hw. destruct Hw.
  - intros Hl. destruct Hok as [Hw Hs Hn Hlink Hi].
    split; unfold linked_on in *.
    + intros t q0. change (threads k' t) with (threads k t).
      destruct (Nat.eq_dec q0 q) as [-> | Hne].
      * rewrite Hq, Hw, Hl. reflexivity.
      * rewrite (Hqs _ Hne). apply Hw.
    + intros q0. destruct (Nat.eq_dec q0 q) as [-> | Hne].
      * rewrite Hq. reflexivity.
      * rewrite (Hqs _ Hne). apply Hs.
    + intros q0. destruct (Nat.eq_dec q0 q) as [-> | Hne].
      * rewrite Hq. constructor.
      * rewrite (Hqs _ Hne). apply Hn.
    + intros t q0. change (threads k' t) with (threads k t).
      destruct (Nat.eq_dec q0 q) as [-> | Hne].
      * rewrite Hq, Hlink, Hl. reflexivity.
      * rewrite (Hqs _ Hne). apply Hlink.
    + intros q0. destruct (Nat.eq_dec q0 q) as [-> | Hne].
      * rewrite Hq. cbn. unfold INT_MAX. lia.
      * rewrite (Hqs _ Hne). apply Hi.
Qed.

(** X23. [sched_switch] keeps the queue invariants: from a kernel state
    with well-formed queues, the queues are well formed when it waits
    for an interrupt, when it switches contexts and when it returns,
    provided the interrupts served and the threads run in between
    leave them well formed. *)
Theorem sched_switch_keeps_queues_ok (fuel : nat) (k : kernel) :
  queues_ok k -> always queues_ok (sched_switch fuel k).
Proof. apply sched_switch_ok. Qed.

(** *** The run queue holds runnable threads *)

Lemma runq_runnable_step k k' :
  (forall t, In t (tq_list (queues k' kt_runq)) ->
             kt_state (threads k' t) = KT_RUN \/
             (In t (tq_list (queues k kt_runq)) /\
              kt_state (threads k' t) = kt_state (threads k t))) ->
  runq_runnable k -> runq_runnable k'.
Proof.
  intros Hstep Hk t Hin. destruct (Hstep t Hin) as [Hrun | [Hin0 Hst]].
  - exact Hrun.
  - rewrite Hst. apply Hk. exact Hin0.
Qed.

Lemma ktqueue_dequeue_runnable q k :
  runq_runnable k -> always runq_runnable (ktqueue_dequeue q k).
Proof.
  intros Hk.
  destruct (list_end (tq_list (queues k q))) as [Hl | (l & thr & Hl)].
  - rewrite ktqueue_dequeue_empty by exact Hl. exact Hk.
  - destruct (ktqueue_dequeue_effect q k l thr Hl)
      as (k1 & Hdeq & [Ht Hts Hq Hqs] & _).
    rewrite Hdeq. unfold always. cbn [ensures].
    eapply runq_runnable_step; [|exact Hk].
    intros t Hin. right. split.
    + destruct (Nat.eq_dec q kt_runq) as [-> | Hne].
      * rewrite Hq in Hin. cbn [tq_list] in Hin. rewrite Hl.
        apply in_or_app. left. exact Hin.
      * rewrite Hqs in Hin by congruence. exact Hin.
    + destruct (Nat.eq_dec t thr) as [-> | Hne].
      * rewrite Ht. reflexivity.
      * rewrite Hts by exact Hne. reflexivity.
Qed.

Lemma ktqueue_enqueue_runnable q thr k :
  q <> kt_runq \/ kt_state (threads k thr) = KT_RUN ->
  runq_runnable k -> always runq_runnable (ktqueue_enqueue q thr k).
Proof.
  intros Hcase Hk.
  destruct (kt_wchan (threads k thr)) as [q0|] eqn:Hw.
  - rewrite ktqueue_enqueue_linked by (rewrite Hw; discriminate). exact Hk.
  - destruct (ktqueue_enqueue_effect q thr k Hw)
      as (k1 & Henq & [Ht Hts Hq Hqs] & _).
    rewrite Henq. unfold always. cbn [ensures].
    eapply runq_runnable_step; [|exact Hk].
    intros t Hin.
    destruct (Nat.eq_dec t thr) as [-> | Hne].
    + rewrite Ht. cbn [kt_state].
      destruct Hcase as [Hq0 | Hrun]; [|left; exact Hrun].
      right. split; [|reflexivity].
      rewrite Hqs in Hin by congruence. exact Hin.
    + right. rewrite Hts by exact Hne. split; [|reflexivity].
      destruct (Nat.eq_dec q kt_runq) as [-> | Hq0].
      * rewrite Hq in Hin. cbn [tq_list] in Hin.
        destruct Hin as [<- | Hin]; [contradiction Hne; reflexivity|exact Hin].
      * rewrite Hqs in Hin by congruence. exact Hin.
Qed.

Lemma runq_runnable_set_run k thr :
  runq_runnable k ->
  runq_runnable (with_thread k thr (set_kt_state (threads k thr) KT_RUN)).
Proof.
  intros Hk. eapply runq_runnable_step; [|exact Hk].
  intros t Hin. destruct (Nat.eq_dec t thr) as [-> | Hne].
  - left. fn_simpl. reflexivity.
  - right. fn_simpl. split; [exact Hin | reflexivity].
Qed.

Lemma sched_make_runnable_runnable thr k :
  runq_runnable k -> always runq_runnable (sched_make_runnable thr k).
Proof.
  intros Hk. unfold sched_make_runnable. run_basic.
  apply always_bind.
  - apply ktqueue_enqueue_runnable.
    + right. fn_simpl. reflexivity.
    + apply (runq_runnable_set_run (with_ipl k IPL_HIGH) thr). exact Hk.
  - intros _ k1 Hk1. unfold always. cbn. exact Hk1.
Qed.

Lemma sched_wakeup_on_runnable q k :
  runq_runnable k -> always runq_runnable (sched_wakeup_on q k).
Proof.
  intros Hk. unfold sched_wakeup_on, sched_queue_empty, list_empty.
  run_basic.
  destruct (bool_decide (tq_list (queues k q) = [])); [exact Hk|].
  apply always_bind; [apply ktqueue_dequeue_runnable; exact Hk|].
  intros [thr|] k1 Hk1; [|exact Hk1].
  apply always_bind; [apply sched_make_runnable_runnable; exact Hk1|].
  intros _ k2 Hk2. exact Hk2.
Qed.

Lemma sched_switch_wait_runnable fuel :
  forall k, runq_runnable k -> always runq_runnable (sched_switch_wait fuel k).
Proof.
  induction fuel as [|fuel IH]; intros k Hk;
    cbn [sched_switch_wait]; unfold bind at 1; run_sched;
    destruct (bool_decide (tq_list (queues k kt_runq) = []));
    try exact Hk.
  unfold always. cbn. split; [exact Hk|].
  intros k' Hk'. apply IH. exact Hk'.
Qed.

Lemma sched_switch_runnable fuel k :
  runq_runnable k -> always runq_runnable (sched_switch fuel k).
Proof.
  intros Hk. unfold sched_switch. run_basic.
  apply always_bind; [apply sched_switch_wait_runnable; exact Hk|].
  intros _ k1 Hk1.
  apply always_bind; [apply ktqueue_dequeue_runnable; exact Hk1|].
  intros new k2 Hk2. run_basic.
  destruct new as [new|]; [|exact Hk2].
  unfold always. cbn. split; [exact Hk2|].
  intros k' Hk'. exact Hk'.
Qed.

(** X24. Every thread on the run queue being in the state [KT_RUN] is
    an invariant of the scheduler: [sched_make_runnable],
    [sched_wakeup_on] and [sched_switch] keep it wherever they return,
    stop or yield, and so do [sched_cancel] on a thread that is not in
    a cancellable sleep, and [sched_sleep_on] on a queue other than the
    run queue by a thread that is not on the run queue. *)
Theorem run_queue_stays_runnable (fuel : nat) (q : qid) (thr : tid)
    (k : kernel) :
  runq_runnable k ->
  always runq_runnable (sched_make_runnable thr k)
  /\
  always runq_runnable (sched_wakeup_on q k)
  /\
  always runq_runnable (sched_switch fuel k)
  /\
  (kt_state (threads k thr) <> KT_SLEEP_CANCELLABLE ->
   always runq_runnable (sched_cancel thr k))
  /\
  (q <> kt_runq ->
   (forall cur, curthr k = Some cur -> ~ linked_on k cur kt_runq) ->
   always runq_runnable (sched_sleep_on fuel q k)).
Proof.
  intros Hk.
  split; [apply sched_make_runnable_runnable; exact Hk|].
  split; [apply sched_wakeup_on_runnable; exact Hk|].
  split; [apply sched_switch_runnable; exact Hk|].
  split.
  - intros Hst. rewrite sched_cancel_flag by exact Hst.
    unfold always. cbn [ensures].
    eapply runq_runnable_step; [|exact Hk].
    intros t Hin. right. split; [exact Hin|].
    destruct (Nat.eq_dec t thr) as [-> | Hne]; fn_simpl; reflexivity.
  - intros Hq Hcur. unfold sched_sleep_on. run_basic.
    destruct (curthr k) as [cur|] eqn:Hc; [|exact Hk].
    run_basic.
    apply always_bind.
    + apply ktqueue_enqueue_runnable; [left; exact Hq|].
      eapply runq_runnable_step; [|exact Hk].
      intros t Hin. right. split; [exact Hin|].
      destruct (Nat.eq_dec t cur) as [-> | Hne]; fn_simpl; [|reflexivity].
      destruct (Hcur cur eq_refl). exact Hin.
    + intros _ k1 Hk1. apply sched_switch_runnable. exact Hk1.
Qed.

Lemma sched_switch_wait_switches {B : Type} (Y : tid -> kernel -> Prop)
    (c : unit -> M B) fuel :
  (forall k0, runq_runnable k0 -> tq_list (queues k0 kt_runq) <> [] ->
              switches runq_runnable Y (c tt k0)) ->
  forall k, runq_runnable k ->
    switches runq_runnable Y (bind (sched_switch_wait fuel) c k).
Proof.
  intros Hc. induction fuel as [|fuel IH]; intros k Hk;
    cbn [sched_switch_wait]; unfold bind at 1 2; run_sched;
    destruct (bool_decide (tq_list (queues k kt_runq) = [])) eqn:Hempty;
    cbn [bind_outcome switches]; auto.
  - apply Hc; [exact Hk|]. apply bool_decide_eq_false in Hempty. exact Hempty.
  - unfold intr_wait. cbn [bind_outcome switches]. split; [exact I|].
    intros k' Hk'. apply (IH (with_ipl k' IPL_HIGH)). exact Hk'.
  - apply Hc; [exact Hk|]. apply bool_decide_eq_false in Hempty. exact Hempty.
Qed.

(** X25. The CPU is only given to runnable threads: when every thread
    on the run queue is in the state [KT_RUN], and the interrupts
    served while [sched_switch] waits leave it so, every
    [context_switch] that [sched_switch] makes, at once or after any
    number of waits, is to a thread in the state [KT_RUN] that has just
    become [curthr], with its process as [curproc], and that is on no
    queue. *)
Theorem sched_switch_runs_runnable (fuel : nat) (k : kernel) :
  runq_runnable k ->
  switches runq_runnable
    (fun new k2 =>
       kt_state (threads k2 new) = KT_RUN /\
       curthr k2 = Some new /\
       curproc k2 = Some (kt_proc (threads k2 new)) /\
       kt_wchan (threads k2 new) = None)
    (sched_switch fuel k).
Proof.
  intros Hk. unfold sched_switch. run_basic.
  apply sched_switch_wait_switches; [|exact Hk].
  intros k0 Hk0 Hne.
  destruct (list_end (tq_list (queues k0 kt_runq)))
    as [Hl | (rest & new & Hl)]; [contradiction|].
  destruct (ktqueue_dequeue_effect kt_runq k0 rest new Hl)
    as (k1 & Hdeq & [Ht Hts Hq Hqs] & _).
  rewrite (bind_done _ _ _ _ _ Hdeq). run_basic.
  unfold context_switch, bind. cbn [bind_outcome switches].
  split; [|intros; exact I].
  fn_simpl. rewrite Ht. cbn [kt_state kt_wchan kt_proc].
  repeat split; auto.
  apply Hk0. rewrite Hl. apply in_or_app. right. left. reflexivity.
Qed.

End More.

(** *** The further properties on the sample kernel *)

Lemma sample_kernel_runnable : runq_runnable sample_kernel.
Proof.
  intros thr Hin. cbn in Hin. destruct Hin as [<- | []]. reflexivity.
Qed.

(** Thread [1] put on the empty queue [2] and taken off again. *)
Lemma ktqueue_enqueue_dequeue_witness :
  exists k1 k2,
    ktqueue_enqueue 2%nat 1%nat sample_kernel = Done tt k1 /\
    ktqueue_dequeue 2%nat k1 = Done (Some 1%nat) k2 /\
    (forall q0, queues k2 q0 = queues sample_kernel q0).
Proof.
  destruct (ktqueue_enqueue_dequeue 2%nat 1%nat sample_kernel eq_refl
              ltac:(cbn; unfold INT_MAX; lia))
    as (k1 & Henq & Hempty & _).
  destruct (Hempty eq_refl) as (k2 & Hdeq & Hqs & _).
  exists k1, k2. split; [exact Henq|]. split; [exact Hdeq | exact Hqs].
Defined.

(** Thread [3] taken from the head of queue [1]. *)
Lemma ktqueue_remove_keeps_order_witness :
  exists k',
    ktqueue_remove 1%nat 3%nat sample_kernel = Done tt k' /\
    tq_list (queues k' 1%nat) = [2%nat].
Proof.
  destruct (ktqueue_remove_keeps_order 1%nat 3%nat sample_kernel [] [2%nat]
              eq_refl eq_refl ltac:(cbn; tauto) ltac:(cbn; lia))
    as (k' & Hrun & Hl & _).
  exists k'. split; [exact Hrun | exact Hl].
Defined.

(** The sample kernel switches from thread [1] to thread [4]. *)
Lemma sched_switch_picks_tail_witness :
  exists k2,
    @sched_switch weenix_consts 0 sample_kernel
    = Yield (CtxSwitch (Some 1%nat) 4%nat) k2
        (fun k' => Done tt (with_ipl k' 0)) /\
    curthr k2 = Some 4%nat /\
    tq_list (queues k2 kt_runq) = [].
Proof.
  destruct (@sched_switch_picks_tail weenix_consts 0%nat sample_kernel []
              4%nat eq_refl)
    as (k2 & Hsw & Hcur & _ & _ & Hl & _).
  exists k2. split; [exact Hsw|]. split; [exact Hcur | exact Hl].
Defined.

(** Threads [5] and [6] made runnable after [sched_init]. *)
Lemma sched_run_queue_fifo_witness :
  exists k k2 resume,
    (sched_init ;; @make_runnable_all weenix_consts [5%nat; 6%nat])
      sample_kernel = Done tt k /\
    tq_list (queues k kt_runq) = [6%nat; 5%nat] /\
    @sched_switch weenix_consts 0 k
    = Yield (CtxSwitch (Some 1%nat) 5%nat) k2 resume /\
    tq_list (queues k2 kt_runq) = [6%nat].
Proof.
  destruct ((sched_init ;; @make_runnable_all weenix_consts [5%nat; 6%nat])
              sample_kernel) as [[] k | k | y k resume | k] eqn:Hrun;
    [|vm_compute in Hrun; discriminate Hrun..].
  destruct (@sched_run_queue_fifo weenix_consts 0%nat sample_kernel k
              [5%nat; 6%nat] Hrun) as [Hl Hsw].
  destruct (Hsw 5%nat [6%nat] eq_refl) as (k2 & resume & Hyield & _ & Hl2).
  exists k, k2, resume.
  split; [reflexivity|]. split; [exact Hl|]. split; [exact Hyield | exact Hl2].
Defined.


(** Thread [1] of the sample kernel going to sleep on queue [2]. *)
Lemma sched_sleep_on_sleeps_witness :
  exists k2,
    @sched_sleep_on weenix_consts 0 2%nat sample_kernel
    = Yield (CtxSwitch (Some 1%nat) 4%nat) k2
        (fun k' => Done tt (with_ipl k' 0)) /\
    kt_state (threads k2 1%nat) = KT_SLEEP /\
    tq_list (queues k2 2%nat) = [1%nat].
Proof.
  destruct (@sched_sleep_on_sleeps weenix_consts 0%nat 2%nat sample_kernel
              1%nat 4%nat [] eq_refl eq_refl ltac:(discriminate)
              ltac:(discriminate) eq_refl)
    as (k2 & Hsw & Hst & _ & _ & Hl & _).
  exists k2. split; [exact Hsw|]. split; [exact Hst | exact Hl].
Defined.

(** The sample kernel without a current thread, and with thread [4],
    which is on the run queue, as the current thread. *)
Lemma sched_sleep_on_asserts_witness :
  @sched_sleep_on weenix_consts 0 2%nat (with_current sample_kernel None None)
  = Panic (with_current sample_kernel None None)
  /\
  exists k',
    @sched_sleep_on weenix_consts 0 2%nat
      (with_current sample_kernel (Some 4%nat) (Some 4%nat)) = Panic k' /\
    kt_wchan (threads k' 4%nat) = Some kt_runq.
Proof.
  split.
  - exact (proj1 (proj1 (@sched_sleep_on_asserts weenix_consts 0%nat 2%nat
                           (with_current sample_kernel None None)) eq_refl)).
  - destruct (proj1 (proj2 (@sched_sleep_on_asserts weenix_consts 0%nat 2%nat
                              (with_current sample_kernel (Some 4%nat)
                                 (Some 4%nat)))
                       4%nat kt_runq eq_refl eq_refl))
      as (k' & Hrun & _ & Hw).
    exists k'. split; [exact Hrun | exact Hw].
Defined.

(** [sched_cancel] on the running thread [1]. *)
Lemma sched_cancel_sets_flag_only_witness :
  exists k1,
    @sched_cancel weenix_consts 1%nat sample_kernel = Done tt k1 /\
    kt_cancelled (threads k1 1%nat) = 1 /\
    kt_state (threads k1 1%nat) = KT_RUN /\
    (forall q, queues k1 q = queues sample_kernel q).
Proof.
  destruct (@sched_cancel_sets_flag_only weenix_consts 1%nat sample_kernel
              ltac:(discriminate))
    as (k1 & Hrun & Ht & _ & Hqs & _).
  exists k1. split; [exact Hrun|]. rewrite Ht.
  split; [reflexivity|]. split; [reflexivity | exact Hqs].
Defined.

(** Thread [1] cancelled and then trying to sleep on queue [2]. *)
Lemma sched_cancel_then_sleep_witness :
  exists k1 k2,
    @sched_cancel weenix_consts 1%nat sample_kernel = Done tt k1 /\
    @sched_cancellable_sleep_on weenix_consts 0 2%nat k1 = Done 4 k2 /\
    (forall q0, queues k2 q0 = queues sample_kernel q0).
Proof.
  destruct (@sched_cancel_then_sleep weenix_consts 0%nat 2%nat 1%nat
              sample_kernel eq_refl ltac:(discriminate))
    as (k1 & k2 & Hc & Hs & Hqs & _).
  exists k1, k2. split; [exact Hc|]. split; [exact Hs | exact Hqs].
Defined.

(** [sched_queue_init] on the empty queue [2] of the sample kernel. *)
Lemma sched_queue_init_empties_witness :
  exists k',
    sched_queue_init 2%nat sample_kernel = Done tt k' /\
    sched_queue_empty 2%nat k' = Done true k' /\
    queues_ok k'.
Proof.
  destruct (@sched_queue_init_empties weenix_consts 2%nat sample_kernel)
    as (k' & Hrun & _ & Hempty & _ & _ & _ & Hok).
  exists k'. split; [exact Hrun|]. split; [exact Hempty|].
  apply (proj2 (Hok sample_kernel_ok)). reflexivity.
Defined.

Lemma sched_switch_keeps_queues_ok_witness :
  always queues_ok (@sched_switch weenix_consts 1 sample_kernel).
Proof.
  exact (@sched_switch_keeps_queues_ok weenix_consts 1%nat sample_kernel
           sample_kernel_ok).
Defined.

Lemma run_queue_stays_runnable_witness :
  always runq_runnable (@sched_make_runnable weenix_consts 1%nat sample_kernel)
  /\
  always runq_runnable (@sched_wakeup_on weenix_consts 1%nat sample_kernel)
  /\
  always runq_runnable (@sched_switch weenix_consts 1 sample_kernel)
  /\
  always runq_runnable (@sched_cancel weenix_consts 1%nat sample_kernel)
  /\
  always runq_runnable (@sched_sleep_on weenix_consts 1 2%nat sample_kernel).
Proof.
  pose proof (@run_queue_stays_runnable weenix_consts 1%nat 1%nat 1%nat
                sample_kernel sample_kernel_runnable) as Hwake.
  pose proof (@run_queue_stays_runnable weenix_consts 1%nat 2%nat 1%nat
                sample_kernel sample_kernel_runnable) as Hsleep.
  destruct Hwake as (Hmr & Hw & Hsw & Hcan & _).
  destruct Hsleep as (_ & _ & _ & _ & Hsl).
  split; [exact Hmr|]. split; [exact Hw|]. split; [exact Hsw|].
  split; [apply Hcan; discriminate|].
  apply Hsl; [discriminate|].
  intros cur Hcur. injection Hcur as <-. unfold linked_on. cbn. lia.
Defined.

Lemma sched_switch_runs_runnable_witness :
  switches runq_runnable
    (fun new k2 =>
       kt_state (threads k2 new) = KT_RUN /\
       curthr k2 = Some new /\
       curproc k2 = Some (kt_proc (threads k2 new)) /\
       kt_wchan (threads k2 new) = None)
    (@sched_switch weenix_consts 1 sample_kernel).
Proof.
  exact (@sched_switch_runs_runnable weenix_consts 1%nat sample_kernel
           sample_kernel_runnable).
Defined.

End SchedSpec.
